(** * Tehuti: the results cache of [src/tehuti.py]

    A shallow embedding of the repository-state identifier
    ([sha], [working_tree_id], [describe_working_tree]) and of the
    [Results] class ([load], [run], [save], [summary], [compare]) and
    of the single-metric check of [main]; then of the metric classes
    ([TimeMetric], [LineCountMetric], [PylintMetric], [MemoryMetric]),
    [shorten_sha], [PKL_DIR], [list_metrics] and the whole of [main],
    of the data selection of the plot states of [src/vis_methods.py] and
    of the [Vis] class and the command line of [src/tehuti-vis.py].

    Modelling choices:
    - a Python [dict] keyed by strings is a [gmap string _]; the order in
      which a dict is iterated is the order of [map_to_list] (Python 2
      dict order is unspecified, so no statement below depends on it);
    - numbers are exact rationals [Q]; float rounding is not modelled;
    - [git] is an environment giving the outcome of each git command:
      its output, a non-zero exit status ([subprocess.CalledProcessError])
      or a missing executable ([OSError]);
    - a metric is its identifier and the outcome of its [run] method;
    - the mutable attribute [self.results], the measure calls made so far
      and the printed report lines are the state of a state-and-exception
      monad; progress messages written by [run] are not modelled. *)

From Stdlib Require Import QArith Qround Qabs String Ascii List Bool ZArith Lia.
From stdpp Require Import base gmap strings list.

Set Warnings "-register-all".


Open Scope string_scope.

(** ** Data *)

(** A metric outcome as stored in a run record, and the [name] entry. *)
Inductive value :=
| VNum (q : Q)
| VList (l : list Q)
| VStr (s : string).

(** A run record maps metric identifiers (and ["name"]) to values; the
    store maps repository-state identifiers to run records. *)
Abbreviation record := (gmap string value).
Abbreviation store := (gmap string record).

(** Python exceptions raised along the modelled paths. *)
Inductive exn :=
| CalledProcessError
| OSError
| KeyError (k : string)
| ZeroDivisionError
| TypeError
| ValueError
| MetricFailure (mid : string).

(** Printed report lines of [compare] and [summary]. *)
Inductive line :=
| OKey (k : string)
| ONoChange
| ODelta (v1 v2 : value) (pct : Z)
| OSummary (k : string) (v : value).

(** Outcome of one subprocess call. *)
Inductive cmd :=
| COk (output : string)
| CFail
| CMissing.

Record git := {
  git_log : string -> cmd;      (* git log -1 --format=%H <name> *)
  git_status : cmd;             (* git status --porcelain -uno *)
  git_describe : cmd            (* git describe --abbrev=40 --dirty *)
}.

(** A metric object: [metric.id()] and the outcome of [metric.run()]. *)
Record metric := {
  mid : string;
  mrun : exn + value
}.

(** ** The state-and-exception monad *)

Record St := {
  results : store;
  measured : list string;
  out : list line
}.

Definition M (A : Type) := St -> St * (exn + A).

Definition ret {A} (a : A) : M A := fun s => (s, inr a).
Definition raise {A} (e : exn) : M A := fun s => (s, inl e).
Definition bind {A B} (c : M A) (k : A -> M B) : M B :=
  fun s => match c s with
           | (s', inl e) => (s', inl e)
           | (s', inr a) => k a s'
           end.

Notation "x <-- c ;; k" := (bind c (fun x => k))
  (at level 100, c at next level, right associativity).
Notation "c ;;; k" := (bind c (fun _ => k))
  (at level 100, right associativity).

Definition get_results : M store := fun s => (s, inr (results s)).
Definition set_results (r : store) : M unit :=
  fun s => ({| results := r; measured := measured s; out := out s |}, inr tt).
Definition print (l : line) : M unit :=
  fun s => ({| results := results s; measured := measured s;
               out := out s ++ [l] |}, inr tt).

(** [try: c except subprocess.CalledProcessError: h] *)
Definition try_cpe {A} (c : M A) (h : M A) : M A :=
  fun s => match c s with
           | (s', inl CalledProcessError) => h s'
           | r => r
           end.

Definition lift {A} (r : exn + A) : M A :=
  match r with inl e => raise e | inr a => ret a end.

(** [d[k]] on a dict: [KeyError] when absent. *)
Definition getitem {V} (m : gmap string V) (k : string) : M V :=
  match m !! k with Some v => ret v | None => raise (KeyError k) end.

(** ** Strings *)

Definition is_space (c : ascii) : bool :=
  match nat_of_ascii c with 32 | 9 | 10 | 11 | 12 | 13 => true | _ => false end.

Fixpoint lstrip (s : string) : string :=
  match s with
  | EmptyString => EmptyString
  | String c t => if is_space c then lstrip t else s
  end.

Fixpoint rev_str (s acc : string) : string :=
  match s with
  | EmptyString => acc
  | String c t => rev_str t (String c acc)
  end.

Definition rstrip (s : string) : string :=
  rev_str (lstrip (rev_str s EmptyString)) EmptyString.

(** [str.strip()] *)
Definition strip (s : string) : string := rstrip (lstrip s).

(** [str.endswith(suf)] *)
Definition endswith (s suf : string) : bool :=
  let n := String.length s in
  let m := String.length suf in
  (m <=? n)%nat && String.eqb (substring (n - m) m s) suf.

(** Python truthiness of an optional string argument. *)
Definition truthy (o : option string) : bool :=
  match o with Some s => negb (String.eqb s "") | None => false end.

(** ** Repository-state identifier *)

(** [subprocess.check_output] *)
Definition check_output (c : cmd) : M string :=
  match c with
  | COk o => ret o
  | CFail => raise CalledProcessError
  | CMissing => raise OSError
  end.

Definition sha (g : git) (name : string) : M string :=
  o <-- check_output (git_log g name) ;; ret (strip o).

Definition working_tree_id (g : git) : M string :=
  try_cpe
    (id <-- sha g "HEAD" ;;
     status <-- check_output (git_status g) ;;
     if negb (String.eqb (strip status) "") then ret (id ++ "-dirty")
     else ret id)
    (ret "unknown").

Definition describe_working_tree (g : git) : M string :=
  o <-- check_output (git_describe g) ;; ret (strip o).

(** ** Python builtins on values *)

(** [a == b] on two record values. *)
Fixpoint qlist_eqb (l1 l2 : list Q) : bool :=
  match l1, l2 with
  | [], [] => true
  | x :: t1, y :: t2 => Qeq_bool x y && qlist_eqb t1 t2
  | _, _ => false
  end.

Definition value_eqb (a b : value) : bool :=
  match a, b with
  | VNum x, VNum y => Qeq_bool x y
  | VList l1, VList l2 => qlist_eqb l1 l2
  | VStr s1, VStr s2 => String.eqb s1 s2
  | _, _ => false
  end.

Definition is_list (v : value) : bool :=
  match v with VList _ => true | _ => false end.

(** [min] keeps the first of several least items. *)
Definition qmin (x : Q) (xs : list Q) : Q :=
  fold_left (fun m y => if negb (Qle_bool m y) then y else m) xs x.

Definition amin (c : ascii) (t : string) : ascii :=
  (fix go (m : ascii) (s : string) : ascii :=
     match s with
     | EmptyString => m
     | String d u => go (if (nat_of_ascii d <? nat_of_ascii m)%nat then d else m) u
     end) c t.

(** [min(v)]: the least item of a list (or the least character of a
    string); [ValueError] on an empty sequence, [TypeError] on a number. *)
Definition py_min (v : value) : exn + value :=
  match v with
  | VList [] => inl ValueError
  | VList (x :: xs) => inr (VNum (qmin x xs))
  | VStr EmptyString => inl ValueError
  | VStr (String c t) => inr (VStr (String (amin c t) EmptyString))
  | VNum _ => inl TypeError
  end.

(** [float(v)]; a list is a [TypeError]. Strings of a record are the
    [name] descriptor only, which [compare] skips; they are taken as
    non-numeric here ([ValueError]). *)
Definition py_float (v : value) : exn + Q :=
  match v with
  | VNum q => inr q
  | VList _ => inl TypeError
  | VStr _ => inl ValueError
  end.

(** ['{:.0f}'.format(x)]: nearest integer, ties to even. *)
Definition round_half_even (r : Q) : Z :=
  let f := Qfloor r in
  let d := Qminus r (inject_Z f) in
  if negb (Qle_bool (1#2) d) then f
  else if negb (Qle_bool d (1#2)) then (f + 1)%Z
  else if Z.even f then f else (f + 1)%Z.

Fixpoint for_each {A} (f : A -> M unit) (l : list A) : M unit :=
  match l with
  | [] => ret tt
  | x :: t => f x ;;; for_each f t
  end.

(** ** [Results] *)

Section Results.

Variable g : git.

(** Body of the loop of [Results.compare] for one shared key. *)
Definition compare_key (key : string) (a b : value) : M unit :=
  print (OKey key) ;;;
  if value_eqb a b then print ONoChange
  else
    v12 <-- (if is_list a then
               v1 <-- lift (py_min a) ;; v2 <-- lift (py_min b) ;; ret (v1, v2)
             else ret (a, b)) ;;
    let (v1, v2) := v12 in
    f2 <-- lift (py_float v2) ;;
    ratio <-- (match v1 with
               | VNum q1 => if Qeq_bool q1 (inject_Z 0) then raise ZeroDivisionError
                            else ret (Qdiv f2 q1)
               | _ => raise TypeError
               end) ;;
    print (ODelta v1 v2 (round_half_even (Qmult ratio (inject_Z 100)))).

(** [single_id and key != single_id] *)
Definition skip_id (single_id : option string) (key : string) : bool :=
  truthy single_id &&
  match single_id with Some s => negb (String.eqb key s) | None => false end.

(** [key == 'name' or (single_id and key != single_id)] *)
Definition skip_key (single_id : option string) (key : string) : bool :=
  String.eqb key "name" || skip_id single_id key.

Definition compare (start : string) (end_ single_id : option string) : M unit :=
  start_sha <-- sha g start ;;
  end_sha <-- (match end_ with None => working_tree_id g | Some e => sha g e end) ;;
  r <-- get_results ;;
  start_results <-- getitem r start_sha ;;
  end_results <-- getitem r end_sha ;;
  for_each (fun key =>
              if skip_key single_id key then ret tt
              else a <-- getitem start_results key ;;
                   b <-- getitem end_results key ;;
                   compare_key key a b)
           (elements (dom start_results ∩ dom end_results)).

(** [metric.run()], recording that the measure operation executed. *)
Definition measure (m : metric) : M value :=
  fun s => ({| results := results s; measured := measured s ++ [mid m];
               out := out s |}, mrun m).

(** The loop of [Results.run] filling the fresh record. *)
Fixpoint fill (single_id : option string) (acc : record) (ms : list metric)
  : M record :=
  match ms with
  | [] => ret acc
  | m :: t =>
      if skip_id single_id (mid m) then fill single_id acc t
      else v <-- measure m ;; fill single_id (<[mid m := v]> acc) t
  end.

(** The decision of [Results.run] whether to (re-)measure. *)
Definition must_run (force : bool) (r : store) (code_id : string) : bool :=
  let run := force in
  let run := if negb run && bool_decide (r !! code_id = None) then true else run in
  if endswith code_id "-dirty" then true else run.

Definition run (metrics : list metric) (force : bool) (single_id : option string)
  : M unit :=
  code_id <-- working_tree_id g ;;
  r <-- get_results ;;
  if must_run force r code_id then
    desc <-- describe_working_tree g ;;
    fresh <-- fill single_id (<["name" := VStr desc]> ∅) metrics ;;
    r' <-- get_results ;;
    set_results (<[code_id := fresh]> r')
  else ret tt.

Definition summary (single_id : option string) : M unit :=
  code_id <-- working_tree_id g ;;
  r <-- get_results ;;
  rec <-- getitem r code_id ;;
  for_each (fun kv : string * value =>
              let (key, v) := kv in
              if skip_id single_id key then ret tt
              else v' <-- (if is_list v then lift (py_min v) else ret v) ;;
                   print (OSummary key v'))
           (map_to_list rec).

End Results.

(** [main]: the [single_id] check, then [Results.load], [run] and [save]
    (when no target commit is given) and [compare] or [summary]. The
    effects of [load] and [save] on the in-memory store are the
    arguments [load] and [save]. *)
Definition main_ (g : git) (metrics : list metric)
    (ref_commit target_commit : option string) (force : bool)
    (single_id : option string) (load save : M unit) : M unit :=
  let body :=
    load ;;;
    (match target_commit with
     | None => run g metrics force single_id ;;; save
     | Some _ => ret tt
     end) ;;;
    (match ref_commit with
     | Some rc => compare g rc target_commit single_id
     | None => summary g single_id
     end) in
  match single_id with
  | Some s => if existsb (fun m => String.eqb (mid m) s) metrics then body
              else raise ValueError
  | None => body
  end.

(** ** Persistence: [Results.pkl_path], [Results.load], [Results.save] *)

(** A JSON document. *)
Inductive json :=
| JNull
| JBool (b : bool)
| JNum (q : Q)
| JStr (s : string)
| JArr (l : list json)
| JObj (kvs : list (string * json)).

(** A file at a path: present but not openable ([IOError] on [open]), or
    present and holding a text, given by the document [json.load] reads
    from it ([None] when the text is not valid JSON). A path absent from
    the file system has no file. *)
Inductive file :=
| Unreadable
| Text (doc : option json).

Abbreviation fs := (gmap string file).

Definition startswith (s pre : string) : bool := String.prefix pre s.

(** [os.path.join(a, b)] *)
Definition path_join (a b : string) : string :=
  if startswith b "/" then b
  else if String.eqb a "" || endswith a "/" then a ++ b
  else a ++ "/" ++ b.

Definition pkl_path (pkl_dir name : string) : string :=
  path_join pkl_dir (name ++ ".json").

(** [Results.load]: the object [json.load] returns, [{}] on [IOError]. *)
Definition load (f : fs) (pkl_dir name : string) : exn + json :=
  match f !! pkl_path pkl_dir name with
  | None => inr (JObj [])
  | Some Unreadable => inr (JObj [])
  | Some (Text None) => inl ValueError
  | Some (Text (Some j)) => inr j
  end.

(** [json.dump] of the store, as a document. *)
Definition value_to_json (v : value) : json :=
  match v with
  | VNum q => JNum q
  | VList l => JArr (map JNum l)
  | VStr s => JStr s
  end.

Definition record_to_json (r : record) : json :=
  JObj (map (fun kv : string * value => (kv.1, value_to_json kv.2)) (map_to_list r)).

Definition store_to_json (S : store) : json :=
  JObj (map (fun kv : string * record => (kv.1, record_to_json kv.2)) (map_to_list S)).

(** [Results.save]: the file at [pkl_path] is overwritten in full with the
    store (directory creation is not modelled). *)
Definition save (f : fs) (pkl_dir name : string) (S : store) : fs :=
  <[pkl_path pkl_dir name := Text (Some (store_to_json S))]> f.

(** Reading a loaded document back as a store, when it has the shape of
    one (the Python [==] between the loaded object and a store). *)
Definition value_of_json (j : json) : option value :=
  match j with
  | JNum q => Some (VNum q)
  | JStr s => Some (VStr s)
  | JArr l => VList <$> mapM (fun x => match x with JNum q => Some q | _ => None end) l
  | _ => None
  end.

Definition obj_of {V} (dec : json -> option V) (kvs : list (string * json))
  : option (gmap string V) :=
  foldr (fun kv acc => v ← dec kv.2; m ← acc; Some (<[kv.1 := v]> m))
        (Some ∅) kvs.

Definition record_of_json (j : json) : option record :=
  match j with JObj kvs => obj_of value_of_json kvs | _ => None end.

Definition store_of_json (j : json) : option store :=
  match j with JObj kvs => obj_of record_of_json kvs | _ => None end.

(** ** Sample inputs *)

(** A clean checkout of commit [c0ffee]; other names resolve to
    themselves. *)
Definition g_clean : git := {|
  git_log := fun n => if String.eqb n "HEAD" then COk "c0ffee
" else COk n;
  git_status := COk "";
  git_describe := COk "v1.0-0-gc0ffee
"
|}.

(** Not a repository: every git command exits with a non-zero status. *)
Definition g_norepo : git := {|
  git_log := fun _ => CFail; git_status := CFail; git_describe := CFail
|}.

(** No git executable. *)
Definition g_nogit : git := {|
  git_log := fun _ => CMissing; git_status := CMissing; git_describe := CMissing
|}.

Definition state_of (r : store) : St :=
  {| results := r; measured := []; out := [] |}.

Definition rec_of (name : string) (kvs : list (string * value)) : record :=
  <["name" := VStr name]> (list_to_map kvs).

Definition m_ok (i : string) (q : Q) : metric := {| mid := i; mrun := inr (VNum q) |}.
Definition m_fail (i : string) : metric := {| mid := i; mrun := inl (MetricFailure i) |}.

(** ** Auxiliary notions used by the proofs *)

(** [c] leaves [self.results] untouched. *)
Definition keeps_results {A} (c : M A) : Prop :=
  forall s, results (fst (c s)) = results s.

Definition selected (sid : option string) (ms : list metric) : list metric :=
  List.filter (fun m => negb (skip_id sid (mid m))) ms.

Definition fill_step (sid : option string) (acc : record) (m : metric) : record :=
  if skip_id sid (mid m) then acc
  else match mrun m with inr v => <[mid m := v]> acc | inl _ => acc end.

(** The outcome of the last metric selected by [sid] whose identifier is
    [k]. *)
Definition lo_step (sid : option string) (k : string) (o : option value)
    (m : metric) : option value :=
  if skip_id sid (mid m) then o
  else if String.eqb (mid m) k then
    match mrun m with inr v => Some v | inl _ => o end
  else o.

Definition last_outcome (sid : option string) (ms : list metric) (k : string)
  : option value :=
  fold_left (lo_step sid k) ms None.

(** [c] only appends lines satisfying [P] to the output. *)
Definition appends {A} (P : line -> Prop) (c : M A) : Prop :=
  forall s, exists rest : list line, out (fst (c s)) = (out s ++ rest)%list /\ Forall P rest.

(** The value [summary] prints for a stored value. *)
Definition reduced (v : value) : value :=
  match v with VList (x :: xs) => VNum (qmin x xs) | _ => v end.

Definition summary_lines (sid : option string) (kvs : list (string * value))
  : list line :=
  flat_map (fun kv : string * value =>
              if skip_id sid kv.1 then [] else [OSummary kv.1 (reduced kv.2)]) kvs.

(** A store holding a record for the clean checkout [c0ffee]. *)
Definition st_present : St :=
  state_of {["c0ffee" := rec_of "v1.0-0-gc0ffee" [("timeit-foo", VList [4; 3]%Q)]]}.

(** * Further code: the metrics, the command line and the plots of
    [src/tehuti.py], [src/vis_methods.py] and [src/tehuti-vis.py] *)


(** ** [int(s, base)] on a byte string (Python 2)

    [PyInt_FromString]: leading whitespace, an optional sign, whitespace,
    for base 16 an optional [0x]/[0X] prefix when a hex digit follows it,
    one or more digits of the base, trailing whitespace; anything else is
    a [ValueError]. *)

(** [_PyLong_DigitValue]: 37 for a character that is no digit. *)
Definition digit_value (c : ascii) : nat :=
  let n := nat_of_ascii c in
  if (48 <=? n)%nat && (n <=? 57)%nat then (n - 48)%nat
  else if (97 <=? n)%nat && (n <=? 122)%nat then (n - 87)%nat
  else if (65 <=? n)%nat && (n <=? 90)%nat then (n - 55)%nat
  else 37%nat.

Definition is_digit (base : nat) (c : ascii) : bool := (digit_value c <? base)%nat.

Definition is_hex (c : ascii) : bool := is_digit 16 c.

Fixpoint all_space (s : string) : bool :=
  match s with
  | EmptyString => true
  | String c t => is_space c && all_space t
  end.

(** [PyOS_strtol]: the sign, [true] for [-]. *)
Definition strip_sign (s : string) : bool * string :=
  match s with
  | String c t =>
      if (nat_of_ascii c =? 43)%nat then (false, t)
      else if (nat_of_ascii c =? 45)%nat then (true, t)
      else (false, s)
  | EmptyString => (false, s)
  end.

(** [PyOS_strtoul]: the [0x] prefix is skipped only when a hex digit
    follows it. *)
Definition strip_hex_prefix (base : nat) (s : string) : string :=
  match s with
  | String z (String x (String d t)) =>
      if (base =? 16)%nat && Ascii.eqb z "0"
         && (Ascii.eqb x "x" || Ascii.eqb x "X") && is_hex d
      then String d t else s
  | _ => s
  end.

(** The digits, then nothing but whitespace. *)
Fixpoint digits_then_space (base : nat) (acc : Z) (s : string) : option Z :=
  match s with
  | EmptyString => Some acc
  | String c t =>
      if is_digit base c
      then digits_then_space base (acc * Z.of_nat base + Z.of_nat (digit_value c))%Z t
      else if all_space s then Some acc else None
  end.

Definition py_int (s : string) (base : nat) : exn + Z :=
  let (neg, t) := strip_sign (lstrip s) in
  let u := strip_hex_prefix base (lstrip t) in
  match u with
  | String c _ =>
      if is_digit base c then
        match digits_then_space base 0 u with
        | Some n => inr (if neg then (- n)%Z else n)
        | None => inl ValueError
        end
      else inl ValueError
  | EmptyString => inl ValueError
  end.

(** [shorten_sha]; [py_int] raises nothing but [ValueError]. *)
Definition shorten_sha (sha : string) : string :=
  match py_int sha 16 with
  | inl _ => sha
  | inr _ => substring 0 8 sha
  end.

(** ** Metric identifiers *)

Inductive metric_def :=
| TimeMetric (name : option string) (func_name : string)
| LineCountMetric (path : string)
| PylintMetric (module : string)
| MemoryMetric (name : option string) (func_name : string)
| RMSErrorMetric (name : option string) (func_name : string).

(** [self.name or self.body.func_name] *)
Definition name_or (name : option string) (func_name : string) : string :=
  match name with
  | Some n => if String.eqb n "" then func_name else n
  | None => func_name
  end.

Definition metric_id (m : metric_def) : string :=
  match m with
  | TimeMetric n f => "timeit-" ++ name_or n f
  | LineCountMetric p => "linecount-" ++ p
  | PylintMetric m => "pylint-" ++ m
  | MemoryMetric n f => "memoryuse-" ++ name_or n f
  | RMSErrorMetric n f => "accuracy-" ++ name_or n f
  end.

(** [Y_AXIS_LABELS] of [vis_methods.py] *)
Definition Y_AXIS_LABELS : gmap string string :=
  list_to_map [("timeit", "Time (s)"); ("linecount", "Number of lines");
               ("pylint", "PyLint score"); ("memoryuse", "Memory (MB)");
               ("accuracy", "Accuracy (%)")].

(** [s.split(sep)] for a one-character separator. *)
Fixpoint split_on (sep : ascii) (s : string) : list string :=
  match s with
  | EmptyString => [""]
  | String c t =>
      if Ascii.eqb c sep then "" :: split_on sep t
      else match split_on sep t with
           | w :: ws => String c w :: ws
           | [] => [String c ""]
           end
  end.

(** [s.split(sep, 1)] *)
Fixpoint split_first (sep : ascii) (s : string) : option (string * string) :=
  match s with
  | EmptyString => None
  | String c t =>
      if Ascii.eqb c sep then Some ("", t)
      else match split_first sep t with
           | Some (a, b) => Some (String c a, b)
           | None => None
           end
  end.

Definition split_on1 (sep : ascii) (s : string) : list string :=
  match split_first sep s with Some (a, b) => [a; b] | None => [s] end.

(** [s.split()]: the words between runs of whitespace. The first
    component is the word the string starts with (empty when it starts
    with whitespace or is empty). *)
Fixpoint words_aux (s : string) : string * list string :=
  match s with
  | EmptyString => ("", [])
  | String c t =>
      let (w, ws) := words_aux t in
      if is_space c then ("", if String.eqb w "" then ws else w :: ws)
      else (String c w, ws)
  end.

Definition py_split (s : string) : list string :=
  let (w, ws) := words_aux s in if String.eqb w "" then ws else w :: ws.

(** ** [run] methods of the metric classes *)

(** [TimeMetric.run]: [values] is what [timeit.Timer.repeat] returned. *)
Fixpoint per_loop (number : Z) (values : list Q) : exn + list Q :=
  match values with
  | [] => inr []
  | v :: t =>
      if Z.eqb number 0 then inl ZeroDivisionError
      else match per_loop number t with
           | inl e => inl e
           | inr l => inr (Qdiv v (inject_Z number) :: l)
           end
  end.

Definition time_run (values : list Q) (number : Z) : exn + value :=
  match per_loop number values with inl e => inl e | inr l => inr (VList l) end.

(** [LineCountMetric.run]: [wc] is the outcome of [wc -l path];
    [count, _ = ...split()] needs exactly two words. *)
Definition linecount_run (wc : cmd) : exn + value :=
  match wc with
  | COk o =>
      match py_split o with
      | [count; _] =>
          match py_int count 10 with
          | inl e => inl e
          | inr n => inr (VNum (inject_Z n))
          end
      | _ => inl ValueError
      end
  | CFail => inl CalledProcessError
  | CMissing => inl OSError
  end.

(** Exceptions raised by code outside [Results]: those of [exn], and
    [IndexError], [AttributeError] and a [KeyError] whose key is an
    object rather than a string. *)
Inductive vis_state := VaryRepoCommit | Violin | ManyBenchmarks | VarySetup.

Inductive vexn :=
| Exn (e : exn)
| IndexError
| AttributeError (msg : string)
| KeyErrorState (k : vis_state)
| SystemExit (code : Z).

#[export] Instance vexn_ret : MRet (sum vexn) := fun A x => inr x.
#[export] Instance vexn_bind : MBind (sum vexn) :=
  fun A B f m => match m with inl e => inl e | inr a => f a end.
#[export] Instance vexn_fmap : FMap (sum vexn) :=
  fun A B f m => match m with inl e => inl e | inr a => inr (f a) end.

Definition of_exn {A} (r : exn + A) : vexn + A :=
  match r with inl e => inl (Exn e) | inr a => inr a end.

(** [l[i]] *)
Definition py_index {A} (l : list A) (i : nat) : vexn + A :=
  match l !! i with Some x => inr x | None => inl IndexError end.

(** [sub in s] *)
Definition str_contains (sub s : string) : bool :=
  match String.index 0 sub s with Some _ => true | None => false end.

Section Pylint.

(** [float(s)] on a string, left abstract: its grammar is not the
    program's. *)
Variable float_of_string : string -> exn + Q.

(** [PylintMetric.run] after [pylint.communicate()]: the return code
    and the standard output. *)
Definition pylint_run (returncode : Z) (output : string) : vexn + value :=
  if bool_decide (returncode ∈ [1%Z; 32%Z]) then inr (VNum 0)
  else
    let lines := split_on "010"%char output in
    let rating := List.filter (str_contains "code has been rated at") lines in
    line0 ← py_index rating 0;
    w6 ← py_index (py_split line0) 6;
    f0 ← py_index (split_on "/" w6) 0;
    VNum <$> of_exn (float_of_string f0).

End Pylint.

(** ** [MemoryMetric]

    The list objects are kept in a heap, so that [self._usage_log] holds
    references: [memory_usage] appends the reference of the list
    [self._metrics], which is rebound to a fresh list at each call of the
    runner only. *)
Record mem := {
  heap : gmap nat (list Q);   (** list objects *)
  next : nat;                 (** next free reference *)
  metrics_ref : nat;          (** [self._metrics] *)
  usage_log : list nat;       (** [self._usage_log] *)
  reads : nat                 (** number of reads of [/proc/<pid>/status] *)
}.

(** kB to MB: [float(x) * self._profiler_scale / self._scale['mb']] *)
Definition kb_to_mb (x : Q) : Q := Qdiv (Qmult x (inject_Z 1024)) (inject_Z 1048576).

Definition qsum (l : list Q) : Q := fold_left Qplus l 0%Q.

Fixpoint repeat_n (n : nat) (f : mem -> mem) (s : mem) : mem :=
  match n with 0 => s | S k => repeat_n k f (f s) end.

(** [MemoryMetric.__init__]: [self._metrics = []], [self._usage_log = []]. *)
Definition mem_init (r0 : nat) : mem :=
  {| heap := {[0%nat := []]}; next := 1; metrics_ref := 0; usage_log := []; reads := r0 |}.

Section Memory.

(** The [vmpeak] values (in kB) of the [k]-th read of the status file. *)
Variable readings : nat -> list Q.

Definition get_usage (s : mem) : mem :=
  {| heap := alter (fun l => (l ++ map kb_to_mb (readings (reads s)))%list)
                   (metrics_ref s) (heap s);
     next := next s; metrics_ref := metrics_ref s;
     usage_log := usage_log s; reads := S (reads s) |}.

Definition memory_usage (s : mem) : mem :=
  let s := get_usage s in
  {| heap := heap s; next := next s; metrics_ref := metrics_ref s;
     usage_log := (usage_log s ++ [metrics_ref s])%list; reads := reads s |}.

(** [_inner] of [_outer] (the body and setup calls are not modelled). *)
Definition inner (number : Z) (s : mem) : mem :=
  let s := {| heap := <[next s := []]> (heap s); next := S (next s);
              metrics_ref := next s; usage_log := usage_log s; reads := reads s |} in
  repeat_n (Z.to_nat number) memory_usage s.

Definition mem_mean (number : Z) (s : mem) (r : nat) : Q :=
  Qdiv (qsum (default [] (heap s !! r))) (inject_Z number).

Definition memory_run (repeat number : Z) (s : mem) : mem * list Q :=
  let s := repeat_n (Z.to_nat repeat) (inner number) s in
  (s, map (mem_mean number s) (usage_log s)).

End Memory.

(** ** [list_metrics], [PKL_DIR] *)

Definition hex_char (n : nat) : ascii :=
  ascii_of_nat (if (n <? 10)%nat then 48 + n else 87 + n).

(** [repr] of a byte string (Python 2 [string_repr]). *)
Definition py_repr (s : string) : string :=
  let q := if str_contains "'" s && negb (str_contains (String (ascii_of_nat 34) "") s)
           then ascii_of_nat 34 else "'"%char in
  let esc := fix esc (t : string) : string :=
    match t with
    | EmptyString => EmptyString
    | String c u =>
        let n := nat_of_ascii c in
        (if Ascii.eqb c q || (n =? 92)%nat then String "\" (String c "")
         else if (n =? 9)%nat then "\t"
         else if (n =? 10)%nat then "\n"
         else if (n =? 13)%nat then "\r"
         else if (n <? 32)%nat || (127 <=? n)%nat
         then String "\" (String "x" (String (hex_char (n / 16)) (String (hex_char (n mod 16)) "")))
         else String c "") ++ esc u
    end in
  String q (esc s ++ String q "").

(** The strings [list_metrics] writes to [out]. *)
Definition list_metrics (metrics_module_name : string) (metrics : list metric)
  : list string :=
  ("Metrics in " ++ py_repr metrics_module_name ++ ":" ++ String "010" "")
    :: map (fun m => "    " ++ mid m ++ String "010" "") metrics.

(** [PKL_DIR], from [XDG_DATA_HOME] and the home directory. *)
Definition PKL_DIR (xdg_data_home : option string) (home : string) : string :=
  path_join (match xdg_data_home with
             | Some d => d
             | None => path_join (path_join home ".local") "share"
             end) "tehuti".

(** ** [vis_methods.py]: selecting the data to plot *)

(** The [commit] argument: [None], a string, or a list of names. *)
Inductive commit_arg := CNone | CStr (s : string) | CList (l : list string).

(** [list(s)] on a string: its characters. *)
Definition chars (s : string) : list string :=
  map (fun c => String c EmptyString) (list_ascii_of_string s).

(** The loop of [_select_data_common] over the records: the keys common
    to all records, ['name'] removed from the first; [None] when there is
    no record. *)
Definition common_keys (recs : list record) : option (gset string) :=
  fold_left (fun (keys : option (gset string)) (r : record) =>
               match keys with
               | None => Some (dom r ∖ {["name"]})
               | Some k => Some (dom r ∩ k)
               end) recs None.

(** [Visualiser._select_data_common]; [list(None)] is a [TypeError]. *)
Definition select_data_common (results : store) (commit : commit_arg)
    (metrics : option (list string)) : vexn + (list string * list string) :=
  let commits := match commit with
                 | CNone => (map_to_list results).*1
                 | CStr s => chars s
                 | CList l => l
                 end in
  match metrics with
  | Some ms => inr (commits, ms)
  | None =>
      match common_keys (map_to_list results).*2 with
      | None => inl (Exn TypeError)
      | Some keys => inr (commits, elements keys)
      end
  end.

Definition vgetitem {V} (m : gmap string V) (k : string) : vexn + V :=
  match m !! k with Some v => inr v | None => inl (Exn (KeyError k)) end.

(** A [for] loop updating an accumulator, stopped by an exception. *)
Fixpoint for_acc {A B} (f : B -> A -> vexn + B) (l : list A) (b : B) : vexn + B :=
  match l with
  | [] => inr b
  | x :: t => b' ← f b x; for_acc f t b'
  end.

(** [min(result)] for a list, the result itself otherwise. *)
Definition min_or_value (v : value) : vexn + value :=
  if is_list v then of_exn (py_min v) else inr v.

(** [VaryRepoCommit.select_data] *)
Definition vary_repo_commit_select (results : store) (commit : commit_arg)
    (metrics : option (list string)) : vexn + gmap string (gmap string value) :=
  '(commits, metrics) ← select_data_common results commit metrics;
  for_acc (fun data metric =>
             row ← for_acc (fun row commit =>
                              r ← vgetitem results commit;
                              result ← vgetitem r metric;
                              v ← min_or_value result;
                              mret (<[commit := v]> row))
                           commits (list_to_map ((fun c => (c, VNum 0)) <$> commits));
             mret (<[metric := row]> data))
          metrics ∅.

(** A value of the data of [Violin]: the initial [0], or a list. *)
Inductive vcell := VCZero | VCList (l : list value).

(** [Violin.select_data] *)
Definition violin_select (results : store) (commit : commit_arg)
    (metrics : option (list string)) : vexn + gmap string (gmap string vcell) :=
  '(commits, metrics) ← select_data_common results commit metrics;
  for_acc (fun data metric =>
             row ← for_acc (fun row commit =>
                              r ← vgetitem results commit;
                              result ← vgetitem r metric;
                              let cell := match result with
                                          | VList l => VCList (VNum <$> l)
                                          | _ => VCList [result]
                                          end in
                              mret (<[commit := cell]> row))
                           commits (list_to_map ((fun c => (c, VCZero)) <$> commits));
             mret (<[metric := row]> data))
          metrics ∅.

(** [m.split('-')[0]]; [split_on] never returns an empty list. *)
Definition first_field (m : string) : string :=
  match split_on "-" m with w :: _ => w | [] => m end.

(** [{}.fromkeys(l).keys()]: the distinct items, in the dict's order. *)
Definition uniq (l : list string) : list string := elements (list_to_set l : gset string).

(** [ManyBenchmarks.select_data]; [None] stands for Python's [None]. *)
Definition many_benchmarks_select (results : store) (commit : commit_arg)
    (metrics : option (list string))
  : vexn + gmap string (gmap string (option (gmap string (option value)))) :=
  '(commits, metrics) ← select_data_common results commit metrics;
  let benchmarks := uniq (first_field <$> metrics) in
  names ← mapM (fun m => py_index (split_on1 "-" m) 1) metrics;
  let metrics := uniq names in
  if (2 <? length benchmarks)%nat then inl (Exn ValueError)
  else
    for_acc (fun data metric =>
      row ← for_acc (fun row b =>
              col ← for_acc (fun col commit =>
                               let full_metric := b ++ "-" ++ metric in
                               r ← vgetitem results commit;
                               result ← vgetitem r full_metric;
                               v ← min_or_value result;
                               mret (<[commit := Some v]> col))
                            commits (list_to_map ((fun c => (c, None)) <$> commits));
              mret (<[b := Some col]> row))
             benchmarks (list_to_map ((fun b => (b, None)) <$> benchmarks));
      mret (<[metric := row]> data))
    metrics ∅.

(** An [OrderedDict]: its items in insertion order. *)
Definition odict := list (string * option value).

(** [OrderedDict.fromkeys(l)] *)
Definition od_fromkeys (l : list string) : odict :=
  fold_left (fun (od : odict) k =>
               if existsb (String.eqb k) od.*1 then od else (od ++ [(k, None)])%list)
            l [].

(** [od[k] = v]: in place when [k] is a key, at the end otherwise. *)
Definition od_set (k : string) (v : value) (od : odict) : odict :=
  if existsb (String.eqb k) od.*1
  then map (fun kv : string * option value =>
              if String.eqb kv.1 k then (k, Some v) else kv) od
  else (od ++ [(k, Some v)])%list.

(** [VarySetup.select_data] *)
Definition vary_setup_select (results : store) (commit : commit_arg)
    (metrics : option (list string))
  : vexn + gmap string (gmap string (option odict)) :=
  '(commits, metrics) ← select_data_common results commit metrics;
  let benchmarks := uniq (first_field <$> metrics) in
  metrics ← mapM (fun m => py_index (split_on1 "-" m) 1) metrics;
  for_acc (fun data b =>
    row ← for_acc (fun row commit =>
            od ← for_acc (fun od metric =>
                            let full_metric := b ++ "-" ++ metric in
                            r ← vgetitem results commit;
                            result ← vgetitem r full_metric;
                            v ← min_or_value result;
                            mret (od_set metric v od))
                         metrics (od_fromkeys metrics);
            mret (<[commit := Some od]> row))
          commits (list_to_map ((fun c => (c, None)) <$> commits));
    mret (<[b := row]> data))
  benchmarks ∅.

(** [VaryRepoCommit.plot]: whether the single-axis plot is drawn, and
    whether the warning is issued, from the keys of [plot_data]. *)
Definition basic_plot (alternate_plot : bool) (keys : list string) : bool * bool :=
  if alternate_plot then
    if (1 <? length (uniq (first_field <$> keys)))%nat then (false, true)
    else (true, false)
  else (false, false).

(** ** [tehuti-vis.py]: the [Vis] class and the command line *)

(** [self._method]: a method name, or a state object. *)
Inductive method_key := KName (s : string) | KState (v : vis_state).

(** [self.methods] *)
Definition methods : gmap string vis_state :=
  list_to_map [("basic", VaryRepoCommit); ("violin", Violin);
               ("many", ManyBenchmarks); ("setup", VarySetup)].

Inductive plot_data :=
| PBasic (d : gmap string (gmap string value))
| PViolin (d : gmap string (gmap string vcell))
| PMany (d : gmap string (gmap string (option (gmap string (option value)))))
| PSetup (d : gmap string (gmap string (option odict))).

Record Vis := {
  vis_results : store;
  vis_method : method_key;
  vis_plot_data : option plot_data
}.

Definition Vis_init (results : store) (method : string) : Vis :=
  {| vis_results := results; vis_method := KName method; vis_plot_data := None |}.

(** The getter [Vis.method]: [self.methods[self._method]]; a state object
    is no key of [self.methods]. *)
Definition get_method (v : Vis) : vexn + vis_state :=
  match vis_method v with
  | KName s => vgetitem methods s
  | KState st => inl (KeyErrorState st)
  end.

(** The setter [Vis.method]. *)
Definition set_method (v : Vis) (value : string) : vexn + Vis :=
  match methods !! value with
  | Some st => inr {| vis_results := vis_results v; vis_method := KState st;
                      vis_plot_data := vis_plot_data v |}
  | None => inl (AttributeError ("Vis has no method " ++ py_repr value ++ "."))
  end.

Definition state_select (st : vis_state) (results : store) (commit : commit_arg)
    (metrics : option (list string)) : vexn + plot_data :=
  match st with
  | VaryRepoCommit => PBasic <$> vary_repo_commit_select results commit metrics
  | Violin => PViolin <$> violin_select results commit metrics
  | ManyBenchmarks => PMany <$> many_benchmarks_select results commit metrics
  | VarySetup => PSetup <$> vary_setup_select results commit metrics
  end.

(** [Vis.select_data] *)
Definition vis_select_data (v : Vis) (commit : commit_arg)
    (metrics : option (list string)) : vexn + Vis :=
  st ← get_method v;
  pd ← state_select st (vis_results v) commit metrics;
  mret {| vis_results := vis_results v; vis_method := vis_method v;
          vis_plot_data := Some pd |}.

(** [Vis.plot], up to the call of the state's [plot] method, returned
    with its argument. *)
Definition vis_plot (v : Vis) (alternate_plot : bool)
  : vexn + (Vis * (vis_state * bool)) :=
  v ← (match vis_plot_data v with
       | None => vis_select_data v CNone None
       | Some _ => mret v
       end);
  st ← get_method v;
  mret (v, (st, alternate_plot)).

Definition choices : list string :=
  ["basic"; "violin"; "many"; "setup"; "basic-oneplot"; "violin-boxplot";
   "many-oneplot"; "setup-oneplot"].

(** [method, alternate = options.plotstyle.split('-')], [ValueError]
    caught. *)
Definition parse_plotstyle (plotstyle : string) : string * bool :=
  match split_on "-" plotstyle with
  | [method; _] => (method, true)
  | _ => (plotstyle, false)
  end.

(** The [__main__] block of [tehuti-vis.py] after loading the results;
    [argparse] exits with status 2 on a plot style not among [choices]. *)
Definition vis_main (results : store) (plotstyle : string)
    (commits metrics : option (list string)) : vexn + (Vis * (vis_state * bool)) :=
  if existsb (String.eqb plotstyle) choices then
    let (method, alternate) := parse_plotstyle plotstyle in
    let visualiser := Vis_init results method in
    visualiser ← vis_select_data visualiser
                   (match commits with None => CNone | Some l => CList l end) metrics;
    vis_plot visualiser alternate
  else inl (SystemExit 2).

(** ** Auxiliary notions used by the proofs of the extra properties *)

(** [c] leaves the record of measure calls untouched. *)
Definition keeps_measured {A} (c : M A) : Prop :=
  forall s, measured (fst (c s)) = measured s.

(** The values (in MB) of the reads [r], ..., [r + k - 1]. *)
Fixpoint block (readings : nat -> list Q) (r k : nat) : list Q :=
  match k with
  | 0 => []
  | S k => (map kb_to_mb (readings r) ++ block readings (S r) k)%list
  end.


Definition no_space (s : string) : bool :=
  forallb (fun c => negb (is_space c)) (list_ascii_of_string s).


(** * Proofs *)

(** ** Frame: computations that leave [self.results] untouched *)

Create HintDb frame.

Lemma keeps_ret {A} (a : A) : keeps_results (ret a).
Proof. intros s; reflexivity. Qed.

Lemma keeps_raise {A} e : keeps_results (@raise A e).
Proof. intros s; reflexivity. Qed.

Lemma keeps_bind {A B} (c : M A) (k : A -> M B) :
  keeps_results c -> (forall a, keeps_results (k a)) -> keeps_results (bind c k).
Proof.
  intros Hc Hk s; unfold bind.
  specialize (Hc s); destruct (c s) as [s' [e|a]]; simpl in *; [done|].
  by rewrite Hk.
Qed.

Lemma keeps_print l : keeps_results (print l).
Proof. intros s; reflexivity. Qed.

Lemma keeps_get : keeps_results get_results.
Proof. intros s; reflexivity. Qed.

Lemma keeps_measure m : keeps_results (measure m).
Proof. intros s; reflexivity. Qed.

Lemma keeps_lift {A} (r : exn + A) : keeps_results (lift r).
Proof. destruct r; intros s; reflexivity. Qed.

Lemma keeps_getitem {V} (m : gmap string V) k : keeps_results (getitem m k).
Proof. unfold getitem; destruct (m !! k); intros s; reflexivity. Qed.

Lemma keeps_try_cpe {A} (c h : M A) :
  keeps_results c -> keeps_results h -> keeps_results (try_cpe c h).
Proof.
  intros Hc Hh s; unfold try_cpe.
  specialize (Hc s); destruct (c s) as [s' [[]|a]]; simpl in *; try done.
  by rewrite Hh.
Qed.

Lemma keeps_for_each {A} (f : A -> M unit) l :
  (forall x, keeps_results (f x)) -> keeps_results (for_each f l).
Proof.
  intros Hf; induction l as [|x t IH]; simpl.
  - apply keeps_ret.
  - by apply keeps_bind.
Qed.

Lemma keeps_check_output c : keeps_results (check_output c).
Proof. destruct c; intros s; reflexivity. Qed.

Lemma keeps_if {A} (b : bool) (c1 c2 : M A) :
  keeps_results c1 -> keeps_results c2 -> keeps_results (if b then c1 else c2).
Proof. by destruct b. Qed.

#[export] Hint Resolve keeps_ret keeps_raise keeps_bind keeps_print keeps_get
  keeps_measure keeps_lift keeps_getitem keeps_try_cpe keeps_for_each
  keeps_check_output keeps_if : frame.

Ltac frame_step :=
  match goal with
  | |- keeps_results (bind _ _) => apply keeps_bind
  | |- keeps_results (for_each _ _) => apply keeps_for_each
  | |- keeps_results (try_cpe _ _) => apply keeps_try_cpe
  | |- keeps_results (match ?x with _ => _ end) => destruct x
  | |- keeps_results _ => solve [eauto with frame]
  end.

Ltac frame := repeat (intros; cbv beta; frame_step).

Lemma keeps_sha g n : keeps_results (sha g n).
Proof. unfold sha; frame. Qed.

Lemma keeps_working_tree_id g : keeps_results (working_tree_id g).
Proof. unfold working_tree_id, sha; frame. Qed.

Lemma keeps_describe g : keeps_results (describe_working_tree g).
Proof. unfold describe_working_tree; frame. Qed.

#[export] Hint Resolve keeps_sha keeps_working_tree_id keeps_describe : frame.

Lemma keeps_compare_key k a b : keeps_results (compare_key k a b).
Proof. unfold compare_key; frame. Qed.

Lemma keeps_fill sid acc ms : keeps_results (fill sid acc ms).
Proof. revert acc; induction ms; simpl; frame. Qed.

#[export] Hint Resolve keeps_compare_key keeps_fill : frame.

Lemma keeps_compare_all g start end_ sid : keeps_results (compare g start end_ sid).
Proof. unfold compare; frame. Qed.

Lemma keeps_summary_all g sid : keeps_results (summary g sid).
Proof. unfold summary; frame. Qed.

(** ** Identifier resolution does not touch the state *)

Lemma working_tree_id_state g s :
  working_tree_id g s = (s, snd (working_tree_id g s)).
Proof.
  unfold working_tree_id, try_cpe, sha, bind, check_output, ret, raise.
  destruct (git_log g "HEAD"), (git_status g); simpl; try reflexivity.
  destruct (negb _); reflexivity.
Qed.

Lemma sha_state g n s : sha g n s = (s, snd (sha g n s)).
Proof. unfold sha, bind, check_output; destruct (git_log g n); reflexivity. Qed.

Lemma describe_ok g d s :
  git_describe g = COk d -> describe_working_tree g s = (s, inr (strip d)).
Proof. intros H; unfold describe_working_tree, bind; rewrite H; reflexivity. Qed.

(** ** The measuring loop of [run] *)

Lemma fill_ok sid acc ms s :
  (forall m, In m ms -> skip_id sid (mid m) = false -> exists v, mrun m = inr v) ->
  fill sid acc ms s =
    ({| results := results s; measured := measured s ++ map mid (selected sid ms);
        out := out s |}, inr (fold_left (fill_step sid) ms acc)).
Proof.
  revert acc s; induction ms as [|m t IH]; intros acc s Hok; simpl.
  - destruct s; simpl; rewrite app_nil_r; reflexivity.
  - unfold fill_step at 2; unfold selected; simpl.
    destruct (skip_id sid (mid m)) eqn:Hs; simpl.
    + apply IH; intros ? ? ?; apply Hok; [right|]; assumption.
    + destruct (Hok m (or_introl eq_refl) Hs) as [v Hv].
      unfold bind, measure; rewrite Hv.
      rewrite IH by (intros ? ? ?; apply Hok; [right|]; assumption); simpl.
      rewrite <- app_assoc; reflexivity.
Qed.

Lemma fill_fail sid acc ms s :
  (exists m e, In m ms /\ skip_id sid (mid m) = false /\ mrun m = inl e) ->
  exists m e, In m ms /\ skip_id sid (mid m) = false /\ mrun m = inl e /\
              snd (fill sid acc ms s) = inl e.
Proof.
  revert acc s; induction ms as [|m t IH]; intros acc s (m0 & e0 & Hin & Hs0 & He0).
  - destruct Hin.
  - simpl. destruct (skip_id sid (mid m)) eqn:Hs.
    + destruct Hin as [<-|Hin]; [congruence|].
      destruct (IH acc s) as (m1 & e1 & ?); [by exists m0, e0|].
      exists m1, e1; intuition.
    + unfold bind, measure. destruct (mrun m) as [e|v] eqn:Hm.
      * exists m, e; simpl; intuition.
      * destruct Hin as [<-|Hin]; [congruence|].
        simpl; match goal with
        | |- context [fill sid ?a t ?s1] =>
            destruct (IH a s1) as (m1 & e1 & ?); [by exists m0, e0|]
        end.
        exists m1, e1; intuition.
Qed.

Lemma fold_lo_step sid k ms o :
  fold_left (lo_step sid k) ms o =
  match last_outcome sid ms k with Some v => Some v | None => o end.
Proof.
  unfold last_outcome; revert o; induction ms as [|m t IH]; intros o; simpl; [done|].
  rewrite (IH (lo_step sid k o m)), (IH (lo_step sid k None m)).
  destruct (fold_left (lo_step sid k) t None); [done|].
  unfold lo_step; destruct (skip_id sid (mid m)), (String.eqb (mid m) k),
    (mrun m); reflexivity.
Qed.

Lemma lookup_fill_steps sid ms acc k :
  fold_left (fill_step sid) ms acc !! k = fold_left (lo_step sid k) ms (acc !! k).
Proof.
  revert acc; induction ms as [|m t IH]; intros acc; simpl; [done|].
  rewrite IH; f_equal.
  unfold fill_step, lo_step; destruct (skip_id sid (mid m)); [done|].
  destruct (String.eqb_spec (mid m) k) as [<-|Hne]; destruct (mrun m); try done.
  - by rewrite lookup_insert_eq.
  - by rewrite lookup_insert_ne.
Qed.

Lemma lookup_name_only d k :
  (<["name" := VStr d]> (∅ : record)) !! k =
  if String.eqb k "name" then Some (VStr d) else None.
Proof.
  destruct (String.eqb_spec k "name") as [->|Hne].
  - by rewrite lookup_insert_eq.
  - rewrite lookup_insert_ne by congruence; apply lookup_empty.
Qed.

Lemma must_run_spec force (r : store) cid :
  must_run force r cid = true <->
  force = true \/ r !! cid = None \/ endswith cid "-dirty" = true.
Proof.
  unfold must_run; destruct (endswith cid "-dirty"), force; simpl;
    try case_bool_decide; intuition congruence.
Qed.

(** [run] once the identifier is resolved. *)
Lemma run_unfold g ms force sid s code_id :
  snd (working_tree_id g s) = inr code_id ->
  run g ms force sid s =
  (if must_run force (results s) code_id then
     (desc <-- describe_working_tree g ;;
      fresh <-- fill sid (<["name" := VStr desc]> ∅) ms ;;
      r' <-- get_results ;;
      set_results (<[code_id := fresh]> r')) s
   else (s, inr tt)).
Proof.
  intros Hid; unfold run at 1; unfold bind at 1.
  rewrite working_tree_id_state, Hid; cbv beta iota.
  unfold bind at 1; simpl.
  destruct (must_run force (results s) code_id); reflexivity.
Qed.

Lemma run_measures g ms force sid s code_id d :
  snd (working_tree_id g s) = inr code_id ->
  must_run force (results s) code_id = true ->
  git_describe g = COk d ->
  (forall m, In m ms -> skip_id sid (mid m) = false -> exists v, mrun m = inr v) ->
  run g ms force sid s =
    ({| results := <[code_id := fold_left (fill_step sid) ms
                                  (<["name" := VStr (strip d)]> ∅)]> (results s);
        measured := measured s ++ map mid (selected sid ms);
        out := out s |}, inr tt).
Proof.
  intros Hid Hrun Hd Hok; rewrite (run_unfold g ms force sid s code_id Hid), Hrun.
  unfold bind at 1; rewrite (describe_ok g d s Hd).
  unfold bind at 1; rewrite fill_ok by exact Hok; reflexivity.
Qed.

Lemma lookup_fresh sid ms d k :
  fold_left (fill_step sid) ms (<["name" := VStr d]> ∅) !! k =
  match last_outcome sid ms k with
  | Some v => Some v
  | None => if String.eqb k "name" then Some (VStr d) else None
  end.
Proof. by rewrite lookup_fill_steps, lookup_name_only, fold_lo_step. Qed.

(** C1. [run] re-measures exactly when [force] is set, the current
    identifier has no record, or the identifier ends in ["-dirty"]. It
    then replaces the record under the identifier by a fresh one holding
    the [name] descriptor and the outcome of every metric selected by
    [single_id] (the last one for a repeated identifier), nothing of the
    old record; the measure operations run are those of the selected
    metrics. Otherwise the state is left as it is, so a run with
    [force = false] on a present clean identifier changes nothing. *)
Theorem run_remeasure_replaces (g : git) (ms : list metric) (force : bool)
    (sid : option string) (s : St) (code_id : string)
    (Hid : snd (working_tree_id g s) = inr code_id) :
  (must_run force (results s) code_id = true <->
     force = true \/ results s !! code_id = None \/
     endswith code_id "-dirty" = true) /\
  (must_run force (results s) code_id = false ->
     run g ms force sid s = (s, inr tt)) /\
  (force = false -> results s !! code_id <> None ->
     endswith code_id "-dirty" = false ->
     run g ms force sid s = (s, inr tt)) /\
  (must_run force (results s) code_id = true ->
   forall d, git_describe g = COk d ->
   (forall m, In m ms -> skip_id sid (mid m) = false -> exists v, mrun m = inr v) ->
   exists R,
     run g ms force sid s =
       ({| results := <[code_id := R]> (results s);
           measured := measured s ++ map mid (selected sid ms);
           out := out s |}, inr tt) /\
     forall k, R !! k =
       match last_outcome sid ms k with
       | Some v => Some v
       | None => if String.eqb k "name" then Some (VStr (strip d)) else None
       end).
Proof.
  split; [apply must_run_spec|].
  split; [intros Hf; by rewrite (run_unfold g ms force sid s code_id Hid), Hf|].
  split.
  - intros Hf Hp Hd.
    assert (Hm : must_run force (results s) code_id = false).
    { destruct (must_run force (results s) code_id) eqn:E; [|done].
      apply must_run_spec in E; intuition congruence. }
    by rewrite (run_unfold g ms force sid s code_id Hid), Hm.
  - intros Hrun d Hd Hok.
    eexists; split.
    + exact (run_measures g ms force sid s code_id d Hid Hrun Hd Hok).
    + intros k; apply lookup_fresh.
Qed.

(** ** Rounding *)

Lemma round_half_even_spec r :
  Qle (Qabs (Qminus (inject_Z (round_half_even r)) r)) (1#2).
Proof.
  destruct r as [n d].
  unfold round_half_even, Qfloor.
  pose proof (Z.div_mod n (Zpos d) ltac:(lia)) as Hdm.
  pose proof (Z.mod_pos_bound n (Zpos d) ltac:(lia)) as Hb.
  generalize dependent (n / Zpos d)%Z; generalize dependent (n mod Zpos d)%Z.
  intros m Hb q Hdm.
  cbv zeta.
  destruct (Qle_bool (1#2) ((n#d) - inject_Z q)) eqn:E1;
  destruct (Qle_bool ((n#d) - inject_Z q) (1#2)) eqn:E2;
  rewrite ?Qle_bool_iff in E1; rewrite ?Qle_bool_iff in E2;
  rewrite <- ?not_true_iff_false, ?Qle_bool_iff in E1;
  rewrite <- ?not_true_iff_false, ?Qle_bool_iff in E2;
  cbn [negb]; [destruct (Z.even q)| | |];
  rewrite Qabs_Qle_condition;
  unfold inject_Z, Qle, Qminus, Qplus, Qopp in *; cbn [Qnum Qden] in *;
  rewrite ?Pos.mul_1_r, ?Pos2Z.inj_mul in *;
  change (Z.neg d) with (- Z.pos d)%Z in *;
  split; subst n; nia.
Qed.

Lemma Qle_bool_compat a b c d : Qeq a c -> Qeq b d -> Qle_bool a b = Qle_bool c d.
Proof.
  intros H1 H2. apply eq_true_iff_eq. rewrite !Qle_bool_iff, H1, H2. reflexivity.
Qed.

Lemma round_half_even_compat x y : Qeq x y -> round_half_even x = round_half_even y.
Proof.
  intros H. unfold round_half_even. rewrite (Qfloor_comp x y H).
  rewrite (Qle_bool_compat (1#2) (x - inject_Z (Qfloor y)) (1#2) (y - inject_Z (Qfloor y)))
    by (reflexivity || (rewrite H; reflexivity)).
  rewrite (Qle_bool_compat (x - inject_Z (Qfloor y)) (1#2) (y - inject_Z (Qfloor y)) (1#2))
    by (reflexivity || (rewrite H; reflexivity)).
  reflexivity.
Qed.

Lemma round_half_even_tie r :
  Qeq (Qminus r (inject_Z (Qfloor r))) (1#2) -> Z.even (round_half_even r) = true.
Proof.
  intros H. unfold round_half_even; cbv zeta.
  assert (E1 : Qle_bool (1#2) (r - inject_Z (Qfloor r)) = true)
    by (apply Qle_bool_iff; rewrite H; apply Qle_refl).
  assert (E2 : Qle_bool (r - inject_Z (Qfloor r)) (1#2) = true)
    by (apply Qle_bool_iff; rewrite H; apply Qle_refl).
  rewrite E1, E2; simpl.
  destruct (Z.even (Qfloor r)) eqn:E; [exact E|].
  rewrite Z.even_add, E. reflexivity.
Qed.

Lemma round_half_even_same v1 v2 :
  ~ Qeq v1 0 -> Qeq v1 v2 -> round_half_even (Qmult (Qdiv v2 v1) (inject_Z 100)) = 100%Z.
Proof.
  intros Hz He.
  rewrite (round_half_even_compat _ (inject_Z 100)); [reflexivity|].
  rewrite <- He. unfold Qdiv. rewrite Qmult_inv_r by exact Hz. apply Qmult_1_l.
Qed.

(** ** Printed output: what a computation appends *)

Create HintDb appends.

Lemma appends_ret {A} P (a : A) : appends P (ret a).
Proof. intros s; exists []; simpl; rewrite app_nil_r; auto. Qed.

Lemma appends_raise {A} P e : appends P (@raise A e).
Proof. intros s; exists []; simpl; rewrite app_nil_r; auto. Qed.

Lemma appends_bind {A B} P (c : M A) (k : A -> M B) :
  appends P c -> (forall a, appends P (k a)) -> appends P (bind c k).
Proof.
  intros Hc Hk s; unfold bind.
  destruct (Hc s) as (r1 & E1 & F1).
  destruct (c s) as [s' [e|a]]; simpl in *.
  - by exists r1.
  - destruct (Hk a s') as (r2 & E2 & F2).
    exists (r1 ++ r2)%list; rewrite E2, E1, app_assoc; split; [done|].
    by apply Forall_app.
Qed.

Lemma appends_print (P : line -> Prop) l : P l -> appends P (print l).
Proof. intros Hl s; exists [l]; simpl; auto. Qed.

Lemma appends_get P : appends P get_results.
Proof. intros s; exists []; simpl; rewrite app_nil_r; auto. Qed.

Lemma appends_lift {A} P (r : exn + A) : appends P (lift r).
Proof. destruct r; [apply appends_raise|apply appends_ret]. Qed.

Lemma appends_getitem {V} P (m : gmap string V) k : appends P (getitem m k).
Proof. unfold getitem; destruct (m !! k); [apply appends_ret|apply appends_raise]. Qed.

Lemma appends_check_output P c : appends P (check_output c).
Proof. destruct c; [apply appends_ret|apply appends_raise|apply appends_raise]. Qed.

Lemma appends_for_each {A} P (f : A -> M unit) l :
  (forall x, In x l -> appends P (f x)) -> appends P (for_each f l).
Proof.
  induction l as [|x t IH]; intros Hf; simpl; [apply appends_ret|].
  apply appends_bind; [apply Hf; left; done|].
  intros _; apply IH; intros y Hy; apply Hf; right; done.
Qed.

#[export] Hint Resolve appends_ret appends_raise appends_print appends_get
  appends_lift appends_getitem appends_check_output : appends.

Ltac appends_step :=
  match goal with
  | |- appends _ (bind _ _) => apply appends_bind
  | |- appends _ (match ?x with _ => _ end) => destruct x
  | |- appends _ _ => solve [eauto with appends]
  end.

Ltac appends := repeat (intros; cbv beta; appends_step).

Lemma compare_key_appends key a b :
  appends (fun l => match l with OKey k => k = key | _ => True end)
          (compare_key key a b).
Proof. unfold compare_key; appends. Qed.

(** The keys [compare] reports on are those of both records. *)
Lemma compare_visits_shared g start end_ sid s cs ce sr er :
  snd (sha g start s) = inr cs ->
  snd ((match end_ with None => working_tree_id g | Some e => sha g e end) s)
    = inr ce ->
  results s !! cs = Some sr ->
  results s !! ce = Some er ->
  exists rest : list line, out (fst (compare g start end_ sid s)) = (out s ++ rest)%list /\
    forall k, In (OKey k) rest -> is_Some (sr !! k) /\ is_Some (er !! k).
Proof.
  intros Hs He Hsr Her.
  assert (Hend : (match end_ with None => working_tree_id g | Some e => sha g e end) s
                 = (s, inr ce)).
  { rewrite <- He; destruct end_; [apply sha_state|apply working_tree_id_state]. }
  unfold compare, bind at 1; rewrite sha_state, Hs; cbv beta iota.
  unfold bind at 1; rewrite Hend; cbv beta iota.
  unfold bind at 1; simpl.
  unfold bind at 1, getitem at 1; rewrite Hsr; simpl.
  unfold bind at 1, getitem at 1; rewrite Her; simpl.
  set (P := fun l => match l with
                     | OKey k => In k (elements (dom sr ∩ dom er))
                     | _ => True end).
  assert (HP : appends P (for_each (fun key =>
              if skip_key sid key then ret tt
              else a <-- getitem sr key ;; b <-- getitem er key ;;
                   compare_key key a b) (elements (dom sr ∩ dom er)))).
  { apply appends_for_each; intros x Hx.
    destruct (skip_key sid x); [apply appends_ret|].
    apply appends_bind; [apply appends_getitem|intros a].
    apply appends_bind; [apply appends_getitem|intros b].
    intros s1; destruct (compare_key_appends x a b s1) as (r & E & F).
    exists r; split; [done|].
    eapply Forall_impl; [exact F|]; intros [k| | |] Hk; subst P; simpl in *; auto.
    by subst k. }
  destruct (HP s) as (rest & E & F); exists rest; split; [done|].
  intros k Hk; rewrite List.Forall_forall in F; specialize (F _ Hk); simpl in F.
  apply list_elem_of_In, elem_of_elements, elem_of_intersection in F.
  destruct F as [F1 F2]; apply elem_of_dom in F1, F2; done.
Qed.

#[export] Hint Extern 1 (_ <> _) => discriminate : appends.
#[export] Hint Extern 1 True => exact I : appends.

(** ** [==] on record values *)

Lemma qlist_eqb_spec l1 l2 : qlist_eqb l1 l2 = true <-> Forall2 Qeq l1 l2.
Proof.
  revert l2; induction l1 as [|x t IH]; intros [|y u]; simpl.
  - split; auto.
  - split; [done|intros H; inversion H].
  - split; [done|intros H; inversion H].
  - rewrite andb_true_iff, Qeq_bool_iff, IH; split.
    + intros [H1 H2]; auto.
    + intros H; inversion H; auto.
Qed.

Lemma value_eqb_spec a b :
  value_eqb a b = true <->
  (exists x y, a = VNum x /\ b = VNum y /\ Qeq x y) \/
  (exists l1 l2, a = VList l1 /\ b = VList l2 /\ Forall2 Qeq l1 l2) \/
  (exists t, a = VStr t /\ b = VStr t).
Proof.
  destruct a as [x|l1|t1], b as [y|l2|t2]; simpl;
    rewrite ?Qeq_bool_iff, ?qlist_eqb_spec, ?String.eqb_eq; split;
    try (intros; exfalso; naive_solver); try naive_solver.
Qed.

(** One key of [compare]: the key line, then the else branch, which
    never prints "no change". *)
Lemma compare_key_unequal key a b s :
  value_eqb a b = false ->
  exists rest : list line,
    out (fst (compare_key key a b s)) = (out s ++ OKey key :: rest)%list /\
    ~ In ONoChange rest.
Proof.
  intros Hf; unfold compare_key, bind at 1; simpl; rewrite Hf.
  match goal with
  | |- exists rest, out (fst (?c ?s1)) = _ /\ _ =>
      assert (H : appends (fun l => l <> ONoChange) c) by appends;
      destruct (H s1) as (rest & E & F)
  end.
  exists rest; split.
  - rewrite E; simpl; rewrite <- app_assoc; reflexivity.
  - intros Hin; rewrite List.Forall_forall in F; by apply (F _ Hin).
Qed.

(** The changed-value branch of one key once both values are reduced to
    numbers. *)
Lemma compare_key_reduced key a b s v1 v2 :
  value_eqb a b = false ->
  ((a = VNum v1 /\ b = VNum v2) \/
   (exists x xs y ys, a = VList (x :: xs) /\ b = VList (y :: ys) /\
                      v1 = qmin x xs /\ v2 = qmin y ys)) ->
  compare_key key a b s =
    (if Qeq_bool v1 (inject_Z 0) then
       ({| results := results s; measured := measured s;
           out := (out s ++ [OKey key])%list |}, inl ZeroDivisionError)
     else
       ({| results := results s; measured := measured s;
           out := (out s ++ [OKey key;
                    ODelta (VNum v1) (VNum v2)
                      (round_half_even (Qmult (Qdiv v2 v1) (inject_Z 100)))])%list |},
        inr tt)).
Proof.
  intros Hf Hshape; unfold compare_key, bind; simpl; rewrite Hf.
  destruct Hshape as [[-> ->] | (x & xs & y & ys & -> & -> & -> & ->)]; simpl;
    destruct (Qeq_bool _ (inject_Z 0)); simpl; try reflexivity;
    unfold print; simpl; rewrite <- app_assoc; reflexivity.
Qed.

(** C2 (as stated): two different lists with equal minima are reported
    as a change of 100%, not as "no change". *)
Lemma compare_equal_minima_not_no_change :
  py_min (VList [1; 2]%Q) = py_min (VList [1; 3]%Q) /\
  out (fst (compare g_clean "a" (Some "b") None
              (state_of (<["a" := rec_of "v1" [("m", VList [1; 2]%Q)]]>
                         {["b" := rec_of "v2" [("m", VList [1; 3]%Q)]]}))))
    = [OKey "m"; ODelta (VNum 1) (VNum 1) 100%Z].
Proof. split; vm_compute; reflexivity. Qed.

(** C2 (amended). For a key both records hold, [compare] prints "no
    change" exactly when the two stored values are equal as stored
    (numbers numerically equal, lists element-wise equal, strings
    identical), with no reduction to the minimum before the test; two
    different non-empty lists with equal minima are reported as a change
    of 100% when the common minimum is non-zero, and raise
    [ZeroDivisionError] when it is 0. *)
Theorem compare_no_change_iff_stored_equal (key : string) (a b : value) (s : St) :
  (value_eqb a b = true <->
     (exists x y, a = VNum x /\ b = VNum y /\ Qeq x y) \/
     (exists l1 l2, a = VList l1 /\ b = VList l2 /\ Forall2 Qeq l1 l2) \/
     (exists t, a = VStr t /\ b = VStr t)) /\
  (value_eqb a b = true ->
     compare_key key a b s =
       ({| results := results s; measured := measured s;
           out := (out s ++ [OKey key; ONoChange])%list |}, inr tt)) /\
  (value_eqb a b = false ->
     exists rest : list line,
       out (fst (compare_key key a b s)) = (out s ++ OKey key :: rest)%list /\
       ~ In ONoChange rest) /\
  (forall (x : Q) (xs : list Q) (y : Q) (ys : list Q),
     a = VList (x :: xs) -> b = VList (y :: ys) ->
     value_eqb a b = false -> Qeq (qmin x xs) (qmin y ys) ->
     compare_key key a b s =
       (if Qeq_bool (qmin x xs) (inject_Z 0) then
          ({| results := results s; measured := measured s;
              out := (out s ++ [OKey key])%list |}, inl ZeroDivisionError)
        else
          ({| results := results s; measured := measured s;
              out := (out s ++ [OKey key;
                       ODelta (VNum (qmin x xs)) (VNum (qmin y ys)) 100%Z])%list |},
           inr tt))).
Proof.
  split; [apply value_eqb_spec|split; [|split]].
  - intros Ht; unfold compare_key, bind; simpl; rewrite Ht; unfold print; simpl.
    rewrite <- app_assoc; reflexivity.
  - apply compare_key_unequal.
  - intros x xs y ys -> -> Hf He.
    rewrite (compare_key_reduced key _ _ s (qmin x xs) (qmin y ys) Hf).
    2:{ right; eexists _, _, _, _; eauto. }
    destruct (Qeq_bool (qmin x xs) (inject_Z 0)) eqn:Ez; [reflexivity|].
    rewrite round_half_even_same; [reflexivity| |exact He].
    intros Hz. apply (Qeq_bool_iff _ (inject_Z 0)) in Hz. congruence.
Qed.

(** C3 (as stated): a number against a list is not reduced and compared;
    [float] of the list raises [TypeError]. *)
Lemma compare_mixed_shapes_raise :
  let s := compare g_clean "a" (Some "b") None
             (state_of (<["a" := rec_of "v1" [("m", VNum 10)]]>
                        {["b" := rec_of "v2" [("m", VList [15]%Q)]]})) in
  snd s = inl TypeError /\ out (fst s) = [OKey "m"].
Proof. vm_compute; split; reflexivity. Qed.

(** C3 (amended). For a key of both records whose stored values differ:
    when both are numbers, or both non-empty lists (each reduced to its
    minimum), [compare] prints the two values and [100 * end / start]
    rounded by [round_half_even]: an integer at distance at most 1/2,
    the even one at a tie; it raises
    [ZeroDivisionError] when the start value is [0]; a number against a
    list, or a non-empty list against a number, raises [TypeError]; and
    only keys present in both records are reported on. *)
Theorem compare_ratio_percent :
  (forall (key : string) (a b : value) (s : St) (v1 v2 : Q),
     value_eqb a b = false ->
     ((a = VNum v1 /\ b = VNum v2) \/
      (exists x xs y ys, a = VList (x :: xs) /\ b = VList (y :: ys) /\
                         v1 = qmin x xs /\ v2 = qmin y ys)) ->
     (Qeq v1 0 ->
        compare_key key a b s =
          ({| results := results s; measured := measured s;
              out := (out s ++ [OKey key])%list |}, inl ZeroDivisionError)) /\
     (~ Qeq v1 0 ->
        compare_key key a b s =
          ({| results := results s; measured := measured s;
              out := (out s ++ [OKey key; ODelta (VNum v1) (VNum v2)
                        (round_half_even (Qmult (Qdiv v2 v1) (inject_Z 100)))])%list |},
           inr tt))) /\
  (forall r : Q,
     Qle (Qabs (Qminus (inject_Z (round_half_even r)) r)) (1#2) /\
     (Qeq (Qminus r (inject_Z (Qfloor r))) (1#2) -> Z.even (round_half_even r) = true)) /\
  (forall (key : string) (x : Q) (l : list Q) (s : St),
     snd (compare_key key (VNum x) (VList l) s) = inl TypeError) /\
  (forall (key : string) (l : list Q) (y : Q) (s : St),
     l <> [] -> snd (compare_key key (VList l) (VNum y) s) = inl TypeError) /\
  (forall g start end_ sid s cs ce (sr er : record),
     snd (sha g start s) = inr cs ->
     snd ((match end_ with None => working_tree_id g | Some e => sha g e end) s)
       = inr ce ->
     results s !! cs = Some sr ->
     results s !! ce = Some er ->
     exists rest : list line,
       out (fst (compare g start end_ sid s)) = (out s ++ rest)%list /\
       forall k, In (OKey k) rest -> is_Some (sr !! k) /\ is_Some (er !! k)).
Proof.
  split; [|split; [|split; [|split]]].
  - intros key a b s v1 v2 Hf Hshape.
    rewrite (compare_key_reduced key a b s v1 v2 Hf Hshape).
    split.
    + intros Hz.
      assert (E : Qeq_bool v1 (inject_Z 0) = true) by (apply Qeq_bool_iff; exact Hz).
      by rewrite E.
    + intros Hnz.
      destruct (Qeq_bool v1 (inject_Z 0)) eqn:E;
        [apply Qeq_bool_iff in E; contradiction|].
      reflexivity.
  - intros r; split; [apply round_half_even_spec|apply round_half_even_tie].
  - intros key x l s; reflexivity.
  - intros key [|y0 l] y s Hne; [done|reflexivity].
  - intros; eapply compare_visits_shared; eauto.
Qed.

(** ** What [run] does to the store *)

Lemma describe_state g s :
  describe_working_tree g s = (s, snd (describe_working_tree g s)).
Proof.
  unfold describe_working_tree, bind, check_output; destruct (git_describe g); reflexivity.
Qed.

(** [run] either leaves [self.results] as it is or replaces the entry of
    the current identifier. *)
Lemma run_results g ms force sid s :
  results (fst (run g ms force sid s)) = results s \/
  exists cid R, snd (working_tree_id g s) = inr cid /\
                results (fst (run g ms force sid s)) = <[cid := R]> (results s).
Proof.
  destruct (snd (working_tree_id g s)) as [e|cid] eqn:Hid.
  - left; unfold run, bind at 1; rewrite working_tree_id_state, Hid; reflexivity.
  - rewrite (run_unfold g ms force sid s cid Hid).
    destruct (must_run force (results s) cid); [|left; reflexivity].
    unfold bind; rewrite describe_state.
    destruct (snd (describe_working_tree g s)) as [e|d]; [left; reflexivity|].
    pose proof (keeps_fill sid (<["name" := VStr d]> ∅) ms s) as Hk.
    destruct (fill sid (<["name" := VStr d]> ∅) ms s) as [s1 [e|fresh]];
      simpl in Hk; [left; exact Hk|].
    right; exists cid, fresh; split; [done|]; simpl; rewrite <- Hk; reflexivity.
Qed.

Lemma run_id_fail g ms force sid s e :
  snd (working_tree_id g s) = inl e -> run g ms force sid s = (s, inl e).
Proof. intros Hid; unfold run, bind at 1; rewrite working_tree_id_state, Hid; reflexivity. Qed.

Lemma fill_none sid acc ms s :
  (forall m, In m ms -> skip_id sid (mid m) = true) ->
  fill sid acc ms s = (s, inr acc).
Proof.
  revert acc; induction ms as [|m t IH]; intros acc Hsk; simpl; [done|].
  rewrite (Hsk m (or_introl eq_refl)); apply IH; intros m' Hm'; apply Hsk; right; done.
Qed.

(** ** Sample witnesses of the decision of [run] *)

(** C4 (as stated): [Results.run] itself has no [UnknownMetric] check: an
    unknown [single_id] runs no metric, raises nothing and writes a
    record holding only the [name] descriptor. *)
Lemma run_unknown_single_id_writes_name_only :
  let r := run g_clean [m_ok "timeit-foo" 3] false (Some "timeit-bar") (state_of ∅) in
  snd r = inr tt /\ measured (fst r) = [] /\
  results (fst r) = {["c0ffee" := {["name" := VStr "v1.0-0-gc0ffee"]}]}.
Proof. vm_compute; split; [|split]; reflexivity. Qed.

(** C4 (amended). The check is made by [main]: a [single_id] equal to no
    metric's identifier raises [ValueError] before the store is loaded or
    any metric measured, with the state unchanged. [Results.run] itself,
    for such a (non-empty) [single_id], measures no metric, raises only an
    exception of [working_tree_id] or [describe_working_tree], and either
    leaves the store unchanged or replaces the record of the identifier
    [working_tree_id] returned by one holding only the [name] descriptor
    [describe_working_tree] returned. *)
Theorem unknown_metric_rejected_by_main :
  (forall g ms ref_commit target_commit force (sid : string) load save s,
     (forall m, In m ms -> mid m <> sid) ->
     main_ g ms ref_commit target_commit force (Some sid) load save s =
       (s, inl ValueError)) /\
  (forall g ms force (sid : string) s,
     sid <> "" -> (forall m, In m ms -> mid m <> sid) ->
     measured (fst (run g ms force (Some sid) s)) = measured s /\
     (snd (run g ms force (Some sid) s) = inr tt \/
      exists e, snd (run g ms force (Some sid) s) = inl e /\
        (snd (working_tree_id g s) = inl e \/ snd (describe_working_tree g s) = inl e)) /\
     (results (fst (run g ms force (Some sid) s)) = results s \/
      exists cid d, snd (working_tree_id g s) = inr cid /\
        snd (describe_working_tree g s) = inr d /\
        results (fst (run g ms force (Some sid) s)) =
          <[cid := {["name" := VStr d]}]> (results s))).
Proof.
  split.
  - intros g ms rc tc force sid load save s Hms; unfold main_.
    destruct (existsb (fun m => String.eqb (mid m) sid) ms) eqn:E; [|reflexivity].
    apply existsb_exists in E as (m & Hm & Heq); apply String.eqb_eq in Heq.
    exfalso; exact (Hms m Hm Heq).
  - intros g ms force sid s Hne Hms.
    assert (Hsk : forall m, In m ms -> skip_id (Some sid) (mid m) = true).
    { intros m Hm; unfold skip_id, truthy.
      apply String.eqb_neq in Hne; rewrite Hne.
      specialize (Hms m Hm); apply String.eqb_neq in Hms; by rewrite Hms. }
    destruct (snd (working_tree_id g s)) as [e|cid] eqn:Hid.
    { rewrite (run_id_fail g ms force (Some sid) s e Hid); simpl.
      split; [done|split; [right; exists e; auto|left; done]]. }
    rewrite (run_unfold g ms force (Some sid) s cid Hid).
    destruct (must_run force (results s) cid); [|simpl; auto].
    unfold bind; rewrite describe_state.
    destruct (snd (describe_working_tree g s)) as [e|d] eqn:Hd.
    { simpl. split; [done|split; [right; exists e; auto|left; done]]. }
    rewrite (fill_none _ _ _ _ Hsk); simpl.
    split; [done|split; [left; done|right; exists cid, d]].
    split; [done|split; [done|]]. by rewrite insert_empty.
Qed.

(** C5 (as stated): outside a repository [working_tree_id] gives
    ["unknown"], but [run] then fails in [describe_working_tree] before
    measuring anything; without a git executable [working_tree_id]
    raises. *)
Lemma unknown_id_run_still_fails :
  snd (working_tree_id g_norepo (state_of ∅)) = inr "unknown" /\
  run g_norepo [m_ok "timeit-foo" 3] false None (state_of ∅) =
    (state_of ∅, inl CalledProcessError) /\
  snd (working_tree_id g_nogit (state_of ∅)) = inl OSError.
Proof. vm_compute; split; [|split]; reflexivity. Qed.

(** C5 (amended). [working_tree_id] returns ["unknown"] when a git
    command it runs exits with a non-zero status, while a missing git
    executable ([OSError]) propagates. A [run] that has to measure under
    ["unknown"] calls [describe_working_tree] first, whose failure is not
    caught: it aborts before any metric with the state unchanged; when the
    description succeeds the metrics are measured and their record is
    stored under ["unknown"]. *)
Theorem working_tree_id_unknown_on_git_error :
  (forall g s,
     (git_log g "HEAD" = CFail \/
      exists o, git_log g "HEAD" = COk o /\ git_status g = CFail) ->
     working_tree_id g s = (s, inr "unknown")) /\
  (forall g s,
     (git_log g "HEAD" = CMissing \/
      exists o, git_log g "HEAD" = COk o /\ git_status g = CMissing) ->
     working_tree_id g s = (s, inl OSError)) /\
  (forall g ms force sid s,
     snd (working_tree_id g s) = inr "unknown" ->
     must_run force (results s) "unknown" = true ->
     (git_describe g = CFail -> run g ms force sid s = (s, inl CalledProcessError)) /\
     (forall d, git_describe g = COk d ->
        (forall m, In m ms -> skip_id sid (mid m) = false -> exists v, mrun m = inr v) ->
        exists R,
          results (fst (run g ms force sid s)) = <["unknown" := R]> (results s) /\
          measured (fst (run g ms force sid s)) =
            (measured s ++ map mid (selected sid ms))%list)).
Proof.
  split; [|split].
  - intros g s [H | (o & H1 & H2)]; unfold working_tree_id, try_cpe, sha, bind;
      [rewrite H|rewrite H1; simpl; rewrite H2]; reflexivity.
  - intros g s [H | (o & H1 & H2)]; unfold working_tree_id, try_cpe, sha, bind;
      [rewrite H|rewrite H1; simpl; rewrite H2]; reflexivity.
  - intros g ms force sid s Hid Hrun; split.
    + intros Hd; rewrite (run_unfold g ms force sid s "unknown" Hid), Hrun.
      unfold bind at 1, describe_working_tree, bind; rewrite Hd; reflexivity.
    + intros d Hd Hok.
      rewrite (run_measures g ms force sid s "unknown" d Hid Hrun Hd Hok).
      eexists; split; reflexivity.
Qed.

(** ** [summary] *)

Lemma summary_loop sid kvs s :
  (forall kv, In kv kvs -> kv.2 <> VList []) ->
  for_each (fun kv : string * value =>
              let (key, v) := kv in
              if skip_id sid key then ret tt
              else v' <-- (if is_list v then lift (py_min v) else ret v) ;;
                   print (OSummary key v')) kvs s =
  ({| results := results s; measured := measured s;
      out := (out s ++ summary_lines sid kvs)%list |}, inr tt).
Proof.
  revert s; induction kvs as [|[k v] t IH]; intros s Hne; simpl.
  - destruct s; simpl; rewrite app_nil_r; reflexivity.
  - assert (Hv : v <> VList []) by exact (Hne (k, v) (or_introl eq_refl)).
    assert (Ht : forall kv, In kv t -> kv.2 <> VList []) by (intros; apply Hne; right; done).
    destruct (skip_id sid k); unfold bind; simpl.
    + rewrite IH by exact Ht; reflexivity.
    + destruct v as [q|[|x xs]|str]; try congruence; simpl; unfold print; simpl;
        rewrite IH by exact Ht; simpl; rewrite <- app_assoc; reflexivity.
Qed.

Lemma in_summary_lines sid (r : record) k v :
  In (OSummary k v) (summary_lines sid (map_to_list r)) <->
  skip_id sid k = false /\ exists v0, r !! k = Some v0 /\ v = reduced v0.
Proof.
  unfold summary_lines; rewrite in_flat_map; split.
  - intros ([k' v0] & Hin & Hl); simpl in Hl.
    destruct (skip_id sid k') eqn:Hs; [destruct Hl|].
    destruct Hl as [Heq|[]]; injection Heq as <- <-.
    split; [done|exists v0; split; [|done]].
    apply elem_of_map_to_list, list_elem_of_In; done.
  - intros (Hs & v0 & Hr & ->); exists (k, v0); split.
    + apply list_elem_of_In, elem_of_map_to_list; done.
    + simpl; rewrite Hs; left; reflexivity.
Qed.

(** C6 (as stated): with no [single_id], [summary] reports the [name]
    entry too. *)
Lemma summary_reports_name :
  In (OSummary "name" (VStr "v1"))
     (out (fst (summary g_clean None
                  (state_of {["c0ffee" := rec_of "v1" [("m", VList [3; 2]%Q)]]})))).
Proof. vm_compute; auto. Qed.

(** C6 (amended). [summary] raises [KeyError] when the current
    identifier has no record; otherwise (no stored list being empty) it
    reports every entry of the record that [single_id] does not exclude,
    the [name] descriptor included, a list reduced to its minimum. *)
Theorem summary_reports_entries (g : git) (sid : option string) (s : St)
    (cid : string) (Hid : snd (working_tree_id g s) = inr cid) :
  (results s !! cid = None -> summary g sid s = (s, inl (KeyError cid))) /\
  (forall rec, results s !! cid = Some rec ->
     (forall k, rec !! k <> Some (VList [])) ->
     exists lines : list line,
       summary g sid s =
         ({| results := results s; measured := measured s;
             out := (out s ++ lines)%list |}, inr tt) /\
       (forall l, In l lines -> exists k v, l = OSummary k v) /\
       (forall k v, In (OSummary k v) lines <->
          skip_id sid k = false /\ exists v0, rec !! k = Some v0 /\ v = reduced v0)).
Proof.
  split.
  - intros Hn; unfold summary, bind at 1; rewrite working_tree_id_state, Hid; simpl.
    unfold bind, getitem; simpl; rewrite Hn; reflexivity.
  - intros rec Hr Hne.
    exists (summary_lines sid (map_to_list rec)); split; [|split].
    + unfold summary, bind at 1; rewrite working_tree_id_state, Hid; simpl.
      unfold bind at 1; simpl; unfold bind at 1, getitem; rewrite Hr; simpl.
      apply summary_loop.
      intros [k v] Hin Hv; simpl in Hv; subst v.
      apply list_elem_of_In, elem_of_map_to_list in Hin; exact (Hne k Hin).
    + intros l Hl; unfold summary_lines in Hl; apply in_flat_map in Hl.
      destruct Hl as ([k v] & _ & Hl); simpl in Hl.
      destruct (skip_id sid k); [destruct Hl|].
      destruct Hl as [<-|[]]; eauto.
    + apply in_summary_lines.
Qed.

(** ** Persistence *)

(** C7 (as stated): a file holding a JSON document that is not a mapping
    is loaded without any error. *)
Lemma load_accepts_non_mapping :
  let f : fs := {[pkl_path "/home/u/.local/share/tehuti" "metrics" :=
                    Text (Some (JArr [JNum 1; JNum 2]))]} in
  load f "/home/u/.local/share/tehuti" "metrics" = inr (JArr [JNum 1; JNum 2]) /\
  store_of_json (JArr [JNum 1; JNum 2]) = None.
Proof. vm_compute; split; reflexivity. Qed.

(** C7 (amended). [load] gives an empty mapping when no file exists at
    the derived path (and also when the file cannot be opened), raises
    [ValueError] when the file's text is not valid JSON, and otherwise
    returns the JSON value the file holds, whatever its top-level type. *)
Theorem load_outcomes (f : fs) (pkl_dir name : string) :
  (f !! pkl_path pkl_dir name = None -> load f pkl_dir name = inr (JObj [])) /\
  (f !! pkl_path pkl_dir name = Some Unreadable -> load f pkl_dir name = inr (JObj [])) /\
  (f !! pkl_path pkl_dir name = Some (Text None) -> load f pkl_dir name = inl ValueError) /\
  (forall j, f !! pkl_path pkl_dir name = Some (Text (Some j)) ->
     load f pkl_dir name = inr j).
Proof.
  unfold load; split; [|split; [|split]]; intros; repeat match goal with
  | H : _ !! _ = _ |- _ => rewrite H
  end; reflexivity.
Qed.

Lemma value_json_roundtrip v : value_of_json (value_to_json v) = Some v.
Proof.
  destruct v as [q|l|str]; simpl; try reflexivity.
  assert (H : mapM (fun x => match x with JNum q => Some q | _ => None end)
                   (map JNum l) = Some l).
  { induction l as [|x t IH]; simpl; [done|]. by rewrite IH. }
  by rewrite H.
Qed.

Lemma obj_of_encoded {V} (dec : json -> option V) (enc : V -> json)
    (l : list (string * V)) :
  (forall v, dec (enc v) = Some v) ->
  obj_of dec (map (fun kv : string * V => (kv.1, enc kv.2)) l) = Some (list_to_map l).
Proof.
  intros Hrt; induction l as [|[k v] t IH]; simpl; [done|].
  unfold obj_of in IH |- *; simpl; rewrite Hrt, IH; reflexivity.
Qed.

Lemma record_json_roundtrip r : record_of_json (record_to_json r) = Some r.
Proof.
  unfold record_of_json, record_to_json.
  rewrite (obj_of_encoded value_of_json value_to_json) by apply value_json_roundtrip.
  by rewrite list_to_map_to_list.
Qed.

(** C9. [save] followed by [load] with the same storage name reads back
    the saved store. *)
Theorem save_load_roundtrip (f : fs) (pkl_dir name : string) (S : store) :
  exists j, load (save f pkl_dir name S) pkl_dir name = inr j /\
            store_of_json j = Some S.
Proof.
  exists (store_to_json S); split.
  - unfold load, save; by rewrite lookup_insert_eq.
  - unfold store_of_json, store_to_json.
    rewrite (obj_of_encoded record_of_json record_to_json) by apply record_json_roundtrip.
    by rewrite list_to_map_to_list.
Qed.

(** ** Failures and frame of [run], [summary] and [compare] *)

(** C8. When [run] measures and a selected metric's measure operation
    raises, the exception (that of the first failing selected metric)
    propagates out of [run] and [self.results] is left as it was: no
    record is written for the attempt. *)
Theorem run_metric_failure_aborts (g : git) (ms : list metric) (force : bool)
    (sid : option string) (s : St) (code_id d : string) (m : metric) (e : exn)
    (Hid : snd (working_tree_id g s) = inr code_id)
    (Hrun : must_run force (results s) code_id = true)
    (Hd : git_describe g = COk d)
    (Hin : In m ms) (Hsel : skip_id sid (mid m) = false) (He : mrun m = inl e) :
  results (fst (run g ms force sid s)) = results s /\
  exists m' e', In m' ms /\ skip_id sid (mid m') = false /\ mrun m' = inl e' /\
                snd (run g ms force sid s) = inl e'.
Proof.
  rewrite (run_unfold g ms force sid s code_id Hid), Hrun.
  unfold bind; rewrite (describe_ok g d s Hd).
  destruct (fill_fail sid (<["name" := VStr (strip d)]> ∅) ms s)
    as (m' & e' & Hin' & Hsel' & He' & Hf); [by exists m, e|].
  pose proof (keeps_fill sid (<["name" := VStr (strip d)]> ∅) ms s) as Hk.
  destruct (fill sid (<["name" := VStr (strip d)]> ∅) ms s) as [s1 r1];
    simpl in Hf, Hk; subst r1.
  split; [exact Hk|exists m', e'; auto].
Qed.

(** C10. [compare] and [summary] never change [self.results], also when
    they raise; [run] changes at most the entry of the current
    working-tree identifier. *)
Theorem results_frame :
  (forall g start end_ sid s,
     results (fst (compare g start end_ sid s)) = results s) /\
  (forall g sid s, results (fst (summary g sid s)) = results s) /\
  (forall g ms force sid s k,
     (forall cid, snd (working_tree_id g s) = inr cid -> k <> cid) ->
     results (fst (run g ms force sid s)) !! k = results s !! k).
Proof.
  split; [|split].
  - intros; apply keeps_compare_all.
  - intros; apply keeps_summary_all.
  - intros g ms force sid s k Hk.
    destruct (run_results g ms force sid s) as [-> | (cid & R & Hid & ->)]; [done|].
    rewrite lookup_insert_ne; [done|].
    intros ->; exact (Hk k Hid eq_refl).
Qed.

(** ** Witnesses: the theorems applied at concrete inputs *)

Lemma run_remeasure_replaces_witness :
  snd (working_tree_id g_clean st_present) = inr "c0ffee" /\
  run g_clean [m_ok "timeit-foo" 2] false None st_present = (st_present, inr tt).
Proof.
  split; [vm_compute; reflexivity|].
  apply (proj1 (proj2 (proj2 (run_remeasure_replaces g_clean [m_ok "timeit-foo" 2]
           false None st_present "c0ffee" ltac:(vm_compute; reflexivity))))).
  - reflexivity.
  - vm_compute; discriminate.
  - vm_compute; reflexivity.
Defined.

Lemma compare_no_change_witness :
  compare_key "timeit-foo" (VList [4; 3]%Q) (VList [4; 3]%Q) (state_of ∅) =
    ({| results := ∅; measured := []; out := [OKey "timeit-foo"; ONoChange] |}, inr tt).
Proof.
  apply (proj1 (proj2 (compare_no_change_iff_stored_equal "timeit-foo"
           (VList [4; 3]%Q) (VList [4; 3]%Q) (state_of ∅)))).
  vm_compute; reflexivity.
Defined.

Lemma compare_ratio_percent_witness :
  compare_key "m" (VNum 10) (VNum 15) (state_of ∅) =
    ({| results := ∅; measured := [];
        out := [OKey "m"; ODelta (VNum 10) (VNum 15) 150%Z] |}, inr tt) /\
  compare_key "m" (VList [10; 20; 5]%Q) (VList [8; 9]%Q) (state_of ∅) =
    ({| results := ∅; measured := [];
        out := [OKey "m"; ODelta (VNum 5) (VNum 8) 160%Z] |}, inr tt).
Proof.
  split.
  - rewrite (proj2 (proj1 compare_ratio_percent "m" (VNum 10) (VNum 15) (state_of ∅)
              10%Q 15%Q eq_refl (or_introl (conj eq_refl eq_refl))))
      by (unfold Qeq; simpl; discriminate).
    vm_compute; reflexivity.
  - rewrite (proj2 (proj1 compare_ratio_percent "m" (VList [10; 20; 5]%Q) (VList [8; 9]%Q)
              (state_of ∅) (qmin 10 [20; 5]%Q) (qmin 8 [9]%Q) eq_refl
              (or_intror (ex_intro _ 10%Q (ex_intro _ [20; 5]%Q (ex_intro _ 8%Q
                 (ex_intro _ [9]%Q (conj eq_refl (conj eq_refl (conj eq_refl eq_refl))))))))))
      by (vm_compute; discriminate).
    vm_compute; reflexivity.
Defined.

Lemma unknown_metric_rejected_by_main_witness :
  main_ g_clean [m_ok "timeit-foo" 3] None None false (Some "timeit-bar")
        (ret tt) (ret tt) (state_of ∅) = (state_of ∅, inl ValueError).
Proof.
  apply (proj1 unknown_metric_rejected_by_main).
  intros m [<-|[]]; discriminate.
Defined.

Lemma working_tree_id_unknown_witness :
  working_tree_id g_norepo (state_of ∅) = (state_of ∅, inr "unknown").
Proof.
  apply (proj1 working_tree_id_unknown_on_git_error).
  left; reflexivity.
Defined.

Lemma summary_reports_entries_witness :
  snd (working_tree_id g_clean (state_of ∅)) = inr "c0ffee" /\
  summary g_clean None (state_of ∅) = (state_of ∅, inl (KeyError "c0ffee")).
Proof.
  split; [vm_compute; reflexivity|].
  apply (proj1 (summary_reports_entries g_clean None (state_of ∅) "c0ffee"
                  ltac:(vm_compute; reflexivity))).
  reflexivity.
Defined.

Lemma load_outcomes_witness :
  load ∅ "/home/u/.local/share/tehuti" "metrics" = inr (JObj []).
Proof.
  apply (proj1 (load_outcomes ∅ "/home/u/.local/share/tehuti" "metrics")).
  reflexivity.
Defined.

Lemma run_metric_failure_aborts_witness :
  results (fst (run g_clean [m_fail "timeit-foo"] false None (state_of ∅))) = ∅.
Proof.
  exact (proj1 (run_metric_failure_aborts g_clean [m_fail "timeit-foo"] false None
           (state_of ∅) "c0ffee" _ (m_fail "timeit-foo") (MetricFailure "timeit-foo")
           ltac:(vm_compute; reflexivity) ltac:(vm_compute; reflexivity) eq_refl
           (or_introl eq_refl) eq_refl eq_refl)).
Defined.

Lemma results_frame_witness :
  results (fst (run g_clean [m_ok "timeit-foo" 2] true None st_present)) !! "deadbeef"
  = results st_present !! "deadbeef".
Proof.
  apply (proj2 (proj2 results_frame)).
  intros cid H; vm_compute in H; injection H as <-; discriminate.
Defined.


(** * Proofs about the further code *)

#[local] Arguments String.append : simpl nomatch.


(** ** Strings *)

Lemma str_app_assoc (a b c : string) : a ++ (b ++ c) = (a ++ b) ++ c.
Proof. induction a as [|x a IH]; simpl; [done|by rewrite IH]. Qed.

Lemma str_app_nil_r (a : string) : a ++ "" = a.
Proof. induction a as [|x a IH]; simpl; [done|by rewrite IH]. Qed.

Lemma substring_full s n : (String.length s <= n)%nat -> substring 0 n s = s.
Proof.
  revert n; induction s as [|c t IH]; intros [|n] H; simpl in *; try done; try lia.
  rewrite IH; [done|lia].
Qed.

Lemma substring_length s n :
  (n <= String.length s)%nat -> String.length (substring 0 n s) = n.
Proof.
  revert n; induction s as [|c t IH]; intros [|n] H; simpl in *; try done; try lia.
  rewrite IH; [done|lia].
Qed.

Lemma substring_prefix s n : String.prefix (substring 0 n s) s = true.
Proof.
  revert n; induction s as [|c t IH]; intros [|n]; simpl; try done.
  destruct (ascii_dec c c); [apply IH|done].
Qed.

(** A suffix of a non-empty string ends with its last character. *)
Lemma suffix_last p u q c :
  p ++ u = q ++ String c "" -> u <> "" -> exists q', u = q' ++ String c "".
Proof.
  revert q; induction p as [|a p IH]; intros q E Hu; simpl in E.
  - by exists q.
  - destruct q as [|b q]; simpl in E.
    + injection E as -> E. destruct p, u; simpl in E; done.
    + injection E as -> E. by apply (IH q).
Qed.

Lemma lstrip_suffix s : exists p, s = p ++ lstrip s.
Proof.
  induction s as [|c t IH]; simpl; [by exists ""|].
  destruct (is_space c); [|by exists ""].
  destruct IH as [p Hp]; exists (String c p); simpl; by rewrite <- Hp.
Qed.

Lemma strip_sign_suffix s : exists p, s = p ++ (strip_sign s).2.
Proof.
  destruct s as [|c t]; simpl; [by exists ""|].
  destruct (_ =? 43)%nat; [by exists (String c "")|].
  destruct (_ =? 45)%nat; [by exists (String c "")|by exists ""].
Qed.

Lemma strip_hex_prefix_suffix b s : exists p, s = p ++ strip_hex_prefix b s.
Proof.
  destruct s as [|z [|x [|d t]]]; simpl; try by exists "".
  destruct (_ && _); [by exists (String z (String x ""))|by exists ""].
Qed.

Lemma all_space_last p c : all_space (p ++ String c "") = true -> is_space c = true.
Proof.
  induction p as [|a p IH]; simpl; intros H.
  - by apply andb_true_iff in H as [H _].
  - apply andb_true_iff in H as [_ H]; auto.
Qed.

Lemma digits_then_space_last b acc u n p c :
  digits_then_space b acc u = Some n -> u = p ++ String c "" ->
  is_digit b c || is_space c = true.
Proof.
  revert acc p; induction u as [|d t IH]; intros acc p H E.
  - destruct p; discriminate.
  - cbn [digits_then_space] in H.
    destruct (is_digit b d) eqn:Hd.
    + destruct p as [|a p]; simpl in E; injection E as -> E.
      * by rewrite Hd.
      * eapply IH; eauto.
    + destruct (all_space (String d t)) eqn:Hs; [|discriminate].
      apply orb_true_iff; right. rewrite E in Hs. by apply (all_space_last p).
Qed.

(** What [int(s, base)] accepts ends with a digit or whitespace. *)
Lemma py_int_last s b n p c :
  py_int s b = inr n -> s = p ++ String c "" -> is_digit b c || is_space c = true.
Proof.
  unfold py_int. intros H E.
  destruct (lstrip_suffix s) as [p1 E1].
  destruct (strip_sign (lstrip s)) as [neg t] eqn:Hsg.
  destruct (strip_sign_suffix (lstrip s)) as [p2 E2]; rewrite Hsg in E2; simpl in E2.
  destruct (lstrip_suffix t) as [p3 E3].
  destruct (strip_hex_prefix_suffix b (lstrip t)) as [p4 E4].
  destruct (strip_hex_prefix b (lstrip t)) as [|d u] eqn:Hu; [discriminate|].
  destruct (is_digit b d); [|discriminate].
  destruct (digits_then_space b 0 (String d u)) eqn:Hd; [|discriminate].
  assert (Es : s = (p1 ++ (p2 ++ (p3 ++ p4))) ++ String d u).
  { rewrite E1 at 1. rewrite E2 at 1. rewrite E3 at 1. rewrite E4 at 1.
    by rewrite !str_app_assoc. }
  rewrite E in Es.
  destruct (suffix_last _ _ _ _ (eq_sym Es)) as [q Hq]; [done|].
  eapply digits_then_space_last; eauto.
Qed.

Lemma is_hex_not_space c : is_hex c = true -> is_space c = false.
Proof. destruct c as [[] [] [] [] [] [] [] []]; vm_compute; congruence. Qed.

Lemma is_hex_not_sign c :
  is_hex c = true -> (nat_of_ascii c =? 43)%nat = false /\ (nat_of_ascii c =? 45)%nat = false.
Proof. destruct c as [[] [] [] [] [] [] [] []]; vm_compute; try split; congruence. Qed.

Lemma digits_then_space_hex acc s :
  forallb is_hex (list_ascii_of_string s) = true ->
  exists n, digits_then_space 16 acc s = Some n.
Proof.
  revert acc; induction s as [|c t IH]; intros acc H; simpl in *; [by eexists|].
  apply andb_true_iff in H as [Hc Ht]. unfold is_hex in Hc; rewrite Hc. auto.
Qed.

Lemma py_int_hex c t :
  forallb is_hex (list_ascii_of_string (String c t)) = true ->
  exists n, py_int (String c t) 16 = inr n.
Proof.
  intros H. pose proof H as H'. simpl in H'. apply andb_true_iff in H' as [Hc Ht].
  unfold py_int. simpl. rewrite (is_hex_not_space c Hc).
  destruct (is_hex_not_sign c Hc) as [N1 N2]. simpl. rewrite N1, N2. simpl.
  rewrite (is_hex_not_space c Hc).
  assert (Hs : exists d u, strip_hex_prefix 16 (String c t) = String d u /\
                 forallb is_hex (list_ascii_of_string (String d u)) = true).
  { destruct t as [|x [|d u]]; simpl; try by do 2 eexists.
    destruct (_ && _) eqn:Hb; [|by do 2 eexists].
    exists d, u; split; [done|]. simpl in Ht |- *.
    apply andb_true_iff in Ht as [_ Ht]; done. }
  destruct Hs as (d & u & -> & Hdu).
  pose proof Hdu as Hd; simpl in Hd; apply andb_true_iff in Hd as [Hd _].
  unfold is_hex in Hd; rewrite Hd.
  destruct (digits_then_space_hex 0 _ Hdu) as [n ->]. by eexists.
Qed.

(** ** Splitting *)

Lemma split_on_dash p x :
  forallb (fun c => negb (Ascii.eqb c "-")) (list_ascii_of_string p) = true ->
  exists rest, split_on "-" (p ++ String "-" x) = p :: rest.
Proof.
  induction p as [|c t IH]; simpl; intros H.
  - by eexists.
  - apply andb_true_iff in H as [Hc Ht].
    destruct (Ascii.eqb c "-"); [discriminate|].
    destruct (IH Ht) as [rest ->]. by eexists.
Qed.

Lemma split_first_dash p x :
  forallb (fun c => negb (Ascii.eqb c "-")) (list_ascii_of_string p) = true ->
  split_first "-" (p ++ String "-" x) = Some (p, x).
Proof.
  induction p as [|c t IH]; simpl; intros H.
  - done.
  - apply andb_true_iff in H as [Hc Ht].
    destruct (Ascii.eqb c "-"); [discriminate|]. by rewrite IH.
Qed.

Lemma metric_id_shape m :
  exists kind rest, metric_id m = kind ++ String "-" rest /\
    forallb (fun c => negb (Ascii.eqb c "-")) (list_ascii_of_string kind) = true /\
    is_Some (Y_AXIS_LABELS !! kind).
Proof.
  destruct m; simpl.
  - exists "timeit", (name_or name func_name); split; [done|]. split; [done|by eexists].
  - exists "linecount", path; split; [done|]. split; [done|by eexists].
  - exists "pylint", module; split; [done|]. split; [done|by eexists].
  - exists "memoryuse", (name_or name func_name); split; [done|]. split; [done|by eexists].
  - exists "accuracy", (name_or name func_name); split; [done|]. split; [done|by eexists].
Qed.

(** ** Extra theorems, part 1 *)

(** X1: [shorten_sha] returns a prefix of its argument: either the whole
    string or its first eight characters. *)
Theorem shorten_sha_prefix_or_same (s : string) :
  String.prefix (shorten_sha s) s = true /\
  (shorten_sha s = s \/ String.length (shorten_sha s) = 8%nat).
Proof.
  unfold shorten_sha. destruct (py_int s 16).
  - split; [|by left]. induction s as [|c t IH]; simpl; [done|].
    destruct (ascii_dec c c); done.
  - split; [apply substring_prefix|].
    destruct (decide (String.length s <= 8)%nat).
    + left; by apply substring_full.
    + right; apply substring_length; lia.
Qed.

(** X2: a non-empty string of hexadecimal digits is shortened to its
    first eight characters. *)
Theorem shorten_sha_hex (c : ascii) (t : string)
    (Hhex : forallb is_hex (list_ascii_of_string (String c t)) = true) :
  shorten_sha (String c t) = substring 0 8 (String c t).
Proof.
  unfold shorten_sha. destruct (py_int_hex c t Hhex) as [n ->]. done.
Qed.

Lemma shorten_sha_last_keep s c :
  is_hex c = false -> is_space c = false -> shorten_sha (s ++ String c "") = s ++ String c "".
Proof.
  intros Hc Hs. unfold shorten_sha. destruct (py_int (s ++ String c "") 16) eqn:E; [done|].
  pose proof (py_int_last _ _ _ _ _ E eq_refl) as H.
  unfold is_hex in Hc. rewrite Hc, Hs in H. discriminate.
Qed.

(** X3: a string whose last character is neither a hexadecimal digit nor
    whitespace (such as a [-dirty] identifier) is returned unchanged. *)
Theorem shorten_sha_non_hex_last (s : string) (c : ascii)
    (Hc : is_hex c = false) (Hs : is_space c = false) :
  shorten_sha (s ++ String c "") = s ++ String c "".
Proof. apply shorten_sha_last_keep; done. Qed.

(** X4: the identifier computed by [working_tree_id] is left unchanged by
    [shorten_sha], unless it is the stripped sha of a clean checkout. *)
Theorem shorten_sha_working_tree_id (g : git) (s : St) (id : string)
    (Hid : snd (working_tree_id g s) = inr id) :
  shorten_sha id = id \/
  exists h st, git_log g "HEAD" = COk h /\ git_status g = COk st /\
               strip st = "" /\ id = strip h.
Proof.
  revert Hid. unfold working_tree_id, try_cpe, sha, bind, check_output, ret, raise.
  destruct (git_log g "HEAD") as [h| |] eqn:Hl; simpl.
  - destruct (git_status g) as [st| |] eqn:Hst; simpl.
    + destruct (negb (strip st =? "")) eqn:Hd; simpl; intros H; injection H as <-.
      * left. replace (strip h ++ "-dirty") with ((strip h ++ "-dirt") ++ String "y" "")
          by (by rewrite <- str_app_assoc).
        by apply shorten_sha_last_keep.
      * right. exists h, st. repeat split; try done.
        apply negb_false_iff, String.eqb_eq in Hd; done.
    + intros H; injection H as <-. by left.
    + discriminate.
  - intros H; injection H as <-. by left.
  - discriminate.
Qed.

(** X5: the first dash-separated field of every metric identifier is a key
    of [Y_AXIS_LABELS]. *)
Theorem metric_id_axis_label (m : metric_def) :
  is_Some (Y_AXIS_LABELS !! first_field (metric_id m)).
Proof.
  destruct (metric_id_shape m) as (kind & rest & E & Hk & Hl).
  unfold first_field. rewrite E. destruct (split_on_dash kind rest Hk) as [r ->]. done.
Qed.

(** X6: [split('-', 1)] splits every metric identifier into exactly two
    parts, the first being its kind, and joining them with a dash gives
    the identifier back. *)
Theorem metric_id_split_roundtrip (m : metric_def) :
  exists b name, split_on1 "-" (metric_id m) = [b; name] /\
    first_field (metric_id m) = b /\ b ++ "-" ++ name = metric_id m.
Proof.
  destruct (metric_id_shape m) as (kind & rest & E & Hk & _).
  exists kind, rest. unfold split_on1, first_field. rewrite E, split_first_dash by done.
  destruct (split_on_dash kind rest Hk) as [r ->]. done.
Qed.


(** ** [TimeMetric.run] *)

Lemma per_loop_ok number values :
  number <> 0%Z ->
  per_loop number values = inr (map (fun v => Qdiv v (inject_Z number)) values).
Proof.
  intros Hn; induction values as [|v t IH]; simpl; [done|].
  rewrite (proj2 (Z.eqb_neq _ _) Hn), IH. done.
Qed.

Lemma fold_min_map (d : Q -> Q)
    (Hd : forall a b, Qle_bool (d a) (d b) = Qle_bool a b) xs x :
  fold_left (fun m y => if negb (Qle_bool m y) then y else m) (map d xs) (d x)
  = d (fold_left (fun m y => if negb (Qle_bool m y) then y else m) xs x).
Proof.
  revert x; induction xs as [|y t IH]; intros x; simpl; [done|].
  rewrite Hd. destruct (negb (Qle_bool x y)); apply IH.
Qed.

Lemma Qle_bool_div (n : Z) a b :
  (0 < n)%Z -> Qle_bool (Qdiv a (inject_Z n)) (Qdiv b (inject_Z n)) = Qle_bool a b.
Proof.
  intros Hn.
  assert (Hpos : Qlt 0 (Qinv (inject_Z n))).
  { apply Qinv_lt_0_compat. unfold Qlt; simpl; lia. }
  apply eq_true_iff_eq. rewrite !Qle_bool_iff. unfold Qdiv.
  apply Qmult_le_r; exact Hpos.
Qed.

(** ** [LineCountMetric.run] *)

Lemma words_aux_word a r :
  no_space a = true -> words_aux (a ++ r) = (a ++ (words_aux r).1, (words_aux r).2).
Proof.
  unfold no_space; induction a as [|c a IH]; simpl; intros H.
  - by destruct (words_aux r).
  - apply andb_true_iff in H as [Hc Ha]. rewrite (IH Ha).
    apply negb_true_iff in Hc; rewrite Hc. done.
Qed.

Lemma words_aux_space c r : is_space c = true -> words_aux (String c r) = ("", py_split r).
Proof. intros H; simpl; unfold py_split; destruct (words_aux r); by rewrite H. Qed.

Lemma words_aux_trailing s c : is_space c = true -> words_aux (s ++ String c "") = words_aux s.
Proof.
  intros H; induction s as [|d s IH]; simpl.
  - by rewrite H.
  - by rewrite IH.
Qed.

Lemma py_split_line count path :
  count <> "" -> no_space count = true ->
  py_split (count ++ String " " (path ++ String "010" "")) = count :: py_split path.
Proof.
  intros Hc Hn. unfold py_split at 1.
  rewrite words_aux_word by done. rewrite words_aux_space by done. simpl.
  rewrite str_app_nil_r.
  destruct (String.eqb count "") eqn:E; [apply String.eqb_eq in E; done|].
  f_equal. unfold py_split. rewrite words_aux_trailing by done. done.
Qed.

Lemma py_split_word s : s <> "" -> no_space s = true -> py_split s = [s].
Proof.
  intros H1 H2. unfold py_split.
  rewrite <- (str_app_nil_r s) at 1. rewrite words_aux_word by done. simpl.
  rewrite str_app_nil_r. destruct (String.eqb s "") eqn:E; [apply String.eqb_eq in E; done|done].
Qed.

(** ** [PylintMetric.run] *)

Lemma filter_none {A} (f : A -> bool) l :
  (forall x, In x l -> f x = false) -> List.filter f l = [].
Proof.
  induction l as [|x t IH]; simpl; intros H; [done|].
  rewrite (H x (or_introl eq_refl)). apply IH; auto.
Qed.

(** ** [MemoryMetric] *)

Lemma alter_as_insert {V} (f : V -> V) (i : nat) (m : gmap nat V) x :
  m !! i = Some x -> alter f i m = <[i := f x]> m.
Proof.
  intros H. apply map_eq; intros j. destruct (decide (i = j)) as [<-|Hne].
  - by rewrite lookup_alter_eq, lookup_insert_eq, H.
  - by rewrite lookup_alter_ne, lookup_insert_ne.
Qed.

Section MemoryProofs.

Variable readings : nat -> list Q.

Lemma memory_usage_steps k s l :
  heap s !! metrics_ref s = Some l ->
  repeat_n k (memory_usage readings) s =
  {| heap := <[metrics_ref s := (l ++ block readings (reads s) k)%list]> (heap s);
     next := next s; metrics_ref := metrics_ref s;
     usage_log := (usage_log s ++ replicate k (metrics_ref s))%list;
     reads := reads s + k |}.
Proof.
  revert s l; induction k as [|k IH]; intros s l Hl; simpl.
  - destruct s; simpl in *. rewrite app_nil_r, app_nil_r, Nat.add_0_r.
    rewrite insert_id by done. done.
  - unfold memory_usage at 2, get_usage; simpl.
    rewrite (alter_as_insert _ _ _ l) by done.
    rewrite (IH _ (l ++ map kb_to_mb (readings (reads s)))%list); simpl; [|by rewrite lookup_insert_eq].
    rewrite insert_insert_eq, <- !app_assoc. simpl. do 2 f_equal. lia.
Qed.

Lemma inner_spec number s :
  inner readings number s =
  {| heap := <[next s := block readings (reads s) (Z.to_nat number)]> (heap s);
     next := S (next s); metrics_ref := next s;
     usage_log := (usage_log s ++ replicate (Z.to_nat number) (next s))%list;
     reads := reads s + Z.to_nat number |}.
Proof.
  unfold inner. rewrite (memory_usage_steps _ _ []); simpl; [|by rewrite lookup_insert_eq].
  by rewrite insert_insert_eq.
Qed.

Lemma outer_spec r number s :
  let n := Z.to_nat number in
  let s' := repeat_n r (inner readings number) s in
  next s' = (next s + r)%nat /\
  usage_log s' = (usage_log s ++ concat (map (fun i => replicate n i) (seq (next s) r)))%list /\
  reads s' = (reads s + r * n)%nat /\
  (forall j, (j < next s)%nat -> heap s' !! j = heap s !! j) /\
  (forall i, (i < r)%nat ->
     heap s' !! (next s + i)%nat = Some (block readings (reads s + i * n) n)).
Proof.
  revert s; induction r as [|r IH]; intros s n s'; subst s'; cbn [repeat_n].
  - rewrite app_nil_r. split; [lia|]. split; [done|]. split; [lia|]. split; [done|]. intros i Hi; lia.
  - destruct (IH (inner readings number s)) as (E1 & E2 & E3 & E4 & E5).
    rewrite inner_spec in E1, E2, E3, E4, E5 |- *; simpl in *.
    repeat split.
    + rewrite E1; lia.
    + rewrite E2, app_assoc. done.
    + rewrite E3; lia.
    + intros j Hj. rewrite E4 by lia. by rewrite lookup_insert_ne by lia.
    + intros [|i] Hi.
      * rewrite Nat.add_0_r, E4 by lia. rewrite lookup_insert_eq. do 2 f_equal; lia.
      * replace (next s + S i)%nat with (S (next s + i))%nat by lia.
        rewrite E5 by lia. do 2 f_equal; lia.
Qed.

End MemoryProofs.

Lemma concat_replicate_length (n a r : nat) :
  length (concat (map (fun i => replicate n i) (seq a r))) = (r * n)%nat.
Proof.
  revert a; induction r as [|r IH]; intros a; simpl; [done|].
  rewrite length_app, length_replicate, IH. lia.
Qed.

Lemma concat_replicate_lookup (n a r i j : nat) :
  (i < r)%nat -> (j < n)%nat ->
  concat (map (fun k => replicate n k) (seq a r)) !! (i * n + j)%nat = Some (a + i)%nat.
Proof.
  revert a i; induction r as [|r IH]; intros a i Hi Hj; simpl; [lia|].
  destruct i as [|i].
  - rewrite lookup_app_l by (rewrite length_replicate; lia).
    rewrite lookup_replicate_2 by lia. f_equal; lia.
  - rewrite lookup_app_r by (rewrite length_replicate; lia).
    rewrite length_replicate.
    replace (S i * n + j - n)%nat with (i * n + j)%nat by lia.
    rewrite IH by lia. f_equal; lia.
Qed.

(** ** Frame: computations that record no measure call *)

Create HintDb mframe.

Lemma km_ret {A} (a : A) : keeps_measured (ret a).
Proof. intros s; reflexivity. Qed.

Lemma km_raise {A} e : keeps_measured (@raise A e).
Proof. intros s; reflexivity. Qed.

Lemma km_bind {A B} (c : M A) (k : A -> M B) :
  keeps_measured c -> (forall a, keeps_measured (k a)) -> keeps_measured (bind c k).
Proof.
  intros Hc Hk s; unfold bind.
  specialize (Hc s); destruct (c s) as [s' [e|a]]; simpl in *; [done|].
  by rewrite Hk.
Qed.

Lemma km_print l : keeps_measured (print l).
Proof. intros s; reflexivity. Qed.

Lemma km_get : keeps_measured get_results.
Proof. intros s; reflexivity. Qed.

Lemma km_lift {A} (r : exn + A) : keeps_measured (lift r).
Proof. destruct r; intros s; reflexivity. Qed.

Lemma km_getitem {V} (m : gmap string V) k : keeps_measured (getitem m k).
Proof. unfold getitem; destruct (m !! k); intros s; reflexivity. Qed.

Lemma km_try_cpe {A} (c h : M A) :
  keeps_measured c -> keeps_measured h -> keeps_measured (try_cpe c h).
Proof.
  intros Hc Hh s; unfold try_cpe.
  specialize (Hc s); destruct (c s) as [s' [[]|a]]; simpl in *; try done.
  by rewrite Hh.
Qed.

Lemma km_for_each {A} (f : A -> M unit) l :
  (forall x, keeps_measured (f x)) -> keeps_measured (for_each f l).
Proof.
  intros Hf; induction l as [|x t IH]; simpl.
  - apply km_ret.
  - by apply km_bind.
Qed.

Lemma km_check_output c : keeps_measured (check_output c).
Proof. destruct c; intros s; reflexivity. Qed.

#[export] Hint Resolve km_ret km_raise km_bind km_print km_get km_lift km_getitem
  km_try_cpe km_for_each km_check_output : mframe.

Ltac mframe_step :=
  match goal with
  | |- keeps_measured (bind _ _) => apply km_bind
  | |- keeps_measured (for_each _ _) => apply km_for_each
  | |- keeps_measured (try_cpe _ _) => apply km_try_cpe
  | |- keeps_measured (match ?x with _ => _ end) => destruct x
  | |- keeps_measured _ => solve [eauto with mframe]
  end.

Ltac mframe := repeat (intros; cbv beta; mframe_step).

Lemma km_sha g n : keeps_measured (sha g n).
Proof. unfold sha; mframe. Qed.

Lemma km_working_tree_id g : keeps_measured (working_tree_id g).
Proof. unfold working_tree_id, sha; mframe. Qed.

#[export] Hint Resolve km_sha km_working_tree_id : mframe.

Lemma km_compare_key k a b : keeps_measured (compare_key k a b).
Proof. unfold compare_key; mframe. Qed.

#[export] Hint Resolve km_compare_key : mframe.

Lemma km_compare g start end_ sid : keeps_measured (compare g start end_ sid).
Proof. unfold compare; mframe. Qed.

Lemma km_summary g sid : keeps_measured (summary g sid).
Proof. unfold summary; mframe. Qed.

Lemma bind_ret_s {A B} (a : A) (k : A -> M B) s : bind (ret a) k s = k a s.
Proof. reflexivity. Qed.

Lemma bind_err_s {A B} (c : M A) (k : A -> M B) s s1 e :
  c s = (s1, inl e) -> bind c k s = (s1, inl e).
Proof. intros H; unfold bind; by rewrite H. Qed.

Lemma appends_same_state {A} P (c : M A) :
  (forall s, c s = (s, snd (c s))) -> appends P c.
Proof. intros H s; exists []; rewrite H; simpl; rewrite app_nil_r; auto. Qed.

(** ** Strings: appending *)

Lemma list_ascii_app a b :
  list_ascii_of_string (a ++ b) = (list_ascii_of_string a ++ list_ascii_of_string b)%list.
Proof. induction a as [|c a IH]; simpl; [done|by rewrite IH]. Qed.

Lemma str_app_inv_r a b c : a ++ c = b ++ c -> a = b.
Proof.
  intros H. apply (f_equal list_ascii_of_string) in H. rewrite !list_ascii_app in H.
  apply app_inv_tail in H.
  rewrite <- (string_of_list_ascii_of_string a), <- (string_of_list_ascii_of_string b).
  by rewrite H.
Qed.

Lemma str_length_app a b : String.length (a ++ b) = (String.length a + String.length b)%nat.
Proof. induction a as [|c a IH]; simpl; [done|by rewrite IH]. Qed.

Lemma substring_app x s k m :
  substring (String.length x + k) m (x ++ s) = substring k m s.
Proof. induction x as [|c x IH]; simpl; [done|apply IH]. Qed.

Lemma endswith_app x s suf :
  (String.length suf <= String.length s)%nat -> endswith (x ++ s) suf = endswith s suf.
Proof.
  intros Hl. unfold endswith. rewrite str_length_app.
  replace (String.length x + String.length s - String.length suf)%nat
    with (String.length x + (String.length s - String.length suf))%nat by lia.
  rewrite substring_app.
  replace (String.length suf <=? String.length x + String.length s)%nat with true
    by (symmetry; apply Nat.leb_le; lia).
  replace (String.length suf <=? String.length s)%nat with true
    by (symmetry; apply Nat.leb_le; lia).
  done.
Qed.

Lemma endswith_self s : endswith s s = true.
Proof.
  unfold endswith. rewrite Nat.leb_refl, Nat.sub_diag, substring_full by lia.
  apply String.eqb_refl.
Qed.

Lemma endswith_app_self x s : endswith (x ++ s) s = true.
Proof. rewrite endswith_app by lia. apply endswith_self. Qed.

Lemma app_nonempty x c y : String.eqb (x ++ String c y) "" = false.
Proof. destruct x; done. Qed.

(** ** Extra theorems, part 2 *)

(** X7: [TimeMetric.run] divides every timing by [number]; with
    [number = 0] and at least one timing it raises [ZeroDivisionError]. *)
Theorem time_run_per_loop (values : list Q) (number : Z) :
  (number <> 0%Z ->
   time_run values number = inr (VList (map (fun v => Qdiv v (inject_Z number)) values))) /\
  (values <> [] -> time_run values 0 = inl ZeroDivisionError).
Proof.
  split.
  - intros Hn. unfold time_run. by rewrite per_loop_ok.
  - destruct values; [done|]. intros _. reflexivity.
Qed.

(** X8: for a positive [number], the minimum of the reported per-loop
    times is the minimum timing divided by [number]. *)
Theorem time_run_best_per_loop (v : Q) (vs : list Q) (number : Z)
    (Hn : (0 < number)%Z) :
  exists l, time_run (v :: vs) number = inr (VList l) /\
    py_min (VList l) = inr (VNum (Qdiv (qmin v vs) (inject_Z number))).
Proof.
  eexists; split.
  - unfold time_run. rewrite per_loop_ok by lia. reflexivity.
  - simpl. unfold qmin. do 2 f_equal.
    apply (fold_min_map (fun q => Qdiv q (inject_Z number))).
    intros a b; by apply Qle_bool_div.
Qed.

(** X9: [LineCountMetric.run] raises [ValueError] when the path printed by
    [wc -l] itself splits on whitespace into two or more words, since the
    output then splits into more than two words. *)
Theorem linecount_run_path_with_space (count path : string)
    (Hc : count <> "") (Hn : no_space count = true)
    (Hp : (2 <= length (py_split path))%nat) :
  linecount_run (COk (count ++ String " " (path ++ String "010" ""))) = inl ValueError.
Proof.
  unfold linecount_run. rewrite py_split_line by done.
  destruct (py_split path) as [|w1 [|w2 ws]]; simpl in Hp; try lia. done.
Qed.

(** X10: for a path without whitespace, [LineCountMetric.run] returns the
    count printed by [wc -l] read as a decimal integer. *)
Theorem linecount_run_reads_count (count path : string) (n : Z)
    (Hc : count <> "") (Hcs : no_space count = true)
    (Hp : path <> "") (Hps : no_space path = true)
    (Hn : py_int count 10 = inr n) :
  linecount_run (COk (count ++ String " " (path ++ String "010" ""))) = inr (VNum (inject_Z n)).
Proof.
  unfold linecount_run. rewrite py_split_line, py_split_word by done. by rewrite Hn.
Qed.

(** X11: [PylintMetric.run] returns 0 when pylint exits with status 1 or
    32; for any other status, output without a rating line raises
    [IndexError]. *)
Theorem pylint_run_edge (float_of_string : string -> exn + Q) (rc : Z) (output : string) :
  ((rc = 1%Z \/ rc = 32%Z) -> pylint_run float_of_string rc output = inr (VNum 0)) /\
  (rc <> 1%Z -> rc <> 32%Z ->
   (forall l, In l (split_on "010" output) ->
      str_contains "code has been rated at" l = false) ->
   pylint_run float_of_string rc output = inl IndexError).
Proof.
  split.
  - intros Hrc. unfold pylint_run. rewrite bool_decide_eq_true_2; [done|].
    destruct Hrc as [->| ->]; set_solver.
  - intros H1 H32 Hno. unfold pylint_run. rewrite bool_decide_eq_false_2.
    + rewrite filter_none by done. reflexivity.
    + intros Hin. apply elem_of_cons in Hin as [->|Hin]; [done|].
      apply elem_of_cons in Hin as [->|Hin]; [done|]. by apply not_elem_of_nil in Hin.
Qed.

(** X12: [MemoryMetric.run] on a fresh metric returns [repeat * number]
    values; the [number] entries logged by the [i]-th call of [_inner] all
    alias the one [_metrics] list of that call, so each of them is the sum
    of every reading taken during that call, divided by [number]. *)
Theorem memory_run_blocks (readings : nat -> list Q) (repeat number : Z) (r0 : nat) :
  let res := snd (memory_run readings repeat number (mem_init r0)) in
  length res = (Z.to_nat repeat * Z.to_nat number)%nat /\
  forall i j, (i < Z.to_nat repeat)%nat -> (j < Z.to_nat number)%nat ->
    res !! (i * Z.to_nat number + j)%nat =
      Some (Qdiv (qsum (block readings (r0 + i * Z.to_nat number) (Z.to_nat number)))
                 (inject_Z number)).
Proof.
  intros res. subst res. unfold memory_run; simpl.
  destruct (outer_spec readings (Z.to_nat repeat) number (mem_init r0))
    as (E1 & E2 & E3 & E4 & E5).
  simpl in *. rewrite E2. split.
  - rewrite length_map, concat_replicate_length. done.
  - intros i j Hi Hj. rewrite list_lookup_fmap, concat_replicate_lookup by done.
    simpl. unfold mem_mean. rewrite E5 by done. done.
Qed.

(** X13: the shared [usage] list is never cleared: the result of
    [MemoryMetric.run] starts with the readings logged by earlier calls
    and ends with [repeat * number] fresh ones. *)
Theorem memory_run_accumulates (readings : nat -> list Q) (repeat number : Z) (s : mem)
    (Hlog : Forall (fun r => (r < next s)%nat) (usage_log s)) :
  exists fresh,
    snd (memory_run readings repeat number s)
      = (map (mem_mean number s) (usage_log s) ++ fresh)%list /\
    length fresh = (Z.to_nat repeat * Z.to_nat number)%nat.
Proof.
  unfold memory_run; simpl.
  destruct (outer_spec readings (Z.to_nat repeat) number s) as (E1 & E2 & E3 & E4 & E5).
  rewrite E2, map_app. eexists; split.
  - f_equal. apply map_ext_in. intros r Hr.
    rewrite List.Forall_forall in Hlog. unfold mem_mean. rewrite E4; [done|auto].
  - rewrite length_map, concat_replicate_length. done.
Qed.

(** X14: an identifier is listed by [list_metrics] exactly when [main]
    accepts it as a [--metric]; an unlisted one makes [main] raise
    [ValueError] in the state it started from. *)
Theorem list_metrics_matches_main_check (name : string) (ms : list metric) (i : string) :
  (In ("    " ++ i ++ String "010" "") (list_metrics name ms) <->
   existsb (fun m => String.eqb (mid m) i) ms = true) /\
  (~ In ("    " ++ i ++ String "010" "") (list_metrics name ms) ->
   forall g rc tc force load save s,
     main_ g ms rc tc force (Some i) load save s = (s, inl ValueError)).
Proof.
  assert (Hiff : In ("    " ++ i ++ String "010" "") (list_metrics name ms) <->
                 existsb (fun m => String.eqb (mid m) i) ms = true).
  { unfold list_metrics. split.
    - intros [H|H]; [discriminate|].
      apply in_map_iff in H as (m & E & Hm).
      apply (inj (String.append "    ")) in E. apply str_app_inv_r in E.
      apply existsb_exists. exists m; split; [done|]. by apply String.eqb_eq.
    - intros H. apply existsb_exists in H as (m & Hm & E).
      apply String.eqb_eq in E. right. apply in_map_iff. exists m; by subst i. }
  split; [exact Hiff|].
  intros Hn g rc tc force load save s. unfold main_.
  destruct (existsb _ ms) eqn:E; [by exfalso; apply Hn, Hiff|done].
Qed.

(** X15: with a [--target] argument, [main] measures nothing and leaves
    the results unchanged, whenever loading and saving leave them
    unchanged. *)
Theorem main_with_target_measures_nothing (g : git) (ms : list metric)
    (rc : option string) (t : string) (force : bool) (sid : option string)
    (load save : M unit) (s : St)
    (Hl1 : keeps_results load) (Hl2 : keeps_measured load) :
  results (fst (main_ g ms rc (Some t) force sid load save s)) = results s /\
  measured (fst (main_ g ms rc (Some t) force sid load save s)) = measured s.
Proof.
  assert (K1 : keeps_results (main_ g ms rc (Some t) force sid load save)).
  { unfold main_. destruct sid; [destruct (existsb _ _)|]; frame;
      apply keeps_compare_all || apply keeps_summary_all. }
  assert (K2 : keeps_measured (main_ g ms rc (Some t) force sid load save)).
  { unfold main_. destruct sid; [destruct (existsb _ _)|]; mframe;
      apply km_compare || apply km_summary. }
  split; [apply K1|apply K2].
Qed.

(** X16: an exception raised by [Results.run] ends [main] before it saves,
    summarises or compares anything. *)
Theorem main_run_error_stops (g : git) (ms : list metric) (rc : option string)
    (force : bool) (sid : option string) (save : M unit) (s : St) (e : exn)
    (Hsid : match sid with
            | Some i => existsb (fun m => String.eqb (mid m) i) ms = true
            | None => True
            end)
    (Hrun : snd (run g ms force sid s) = inl e) :
  main_ g ms rc None force sid (ret tt) save s = run g ms force sid s.
Proof.
  assert (Hr : run g ms force sid s = (fst (run g ms force sid s), inl e)).
  { rewrite <- Hrun. by destruct (run g ms force sid s). }
  unfold main_. destruct sid as [i|]; [rewrite Hsid|];
    rewrite bind_ret_s; rewrite Hr; do 2 (apply bind_err_s); done.
Qed.

(** X17: [Results.compare] never reports the [name] key, and with a metric
    id it reports only that metric. *)
Theorem compare_reports_no_name (g : git) (start : string) (end_ sid : option string)
    (s : St) :
  exists rest, out (fst (compare g start end_ sid s)) = (out s ++ rest)%list /\
    forall k, In (OKey k) rest -> k <> "name" /\ (truthy sid = true -> sid = Some k).
Proof.
  set (P := fun l => match l with
                     | OKey k => k <> "name" /\ (truthy sid = true -> sid = Some k)
                     | _ => True end).
  assert (HP : appends P (compare g start end_ sid)).
  { unfold compare.
    apply appends_bind; [apply appends_same_state; intros s1; apply sha_state|intros cs].
    apply appends_bind; [|intros ce].
    { apply appends_same_state; intros s1; destruct end_;
        [apply sha_state|apply working_tree_id_state]. }
    apply appends_bind; [apply appends_get|intros r].
    apply appends_bind; [apply appends_getitem|intros sr].
    apply appends_bind; [apply appends_getitem|intros er].
    apply appends_for_each; intros key _.
    destruct (skip_key sid key) eqn:Hk; [apply appends_ret|].
    apply appends_bind; [apply appends_getitem|intros a].
    apply appends_bind; [apply appends_getitem|intros b].
    intros s1; destruct (compare_key_appends key a b s1) as (r0 & E & F).
    exists r0; split; [done|].
    eapply Forall_impl; [exact F|]; intros [k| | |] Hkl; subst P; simpl in *; auto.
    subst k. unfold skip_key, skip_id in Hk.
    apply orb_false_iff in Hk as [Hn Hs]. split; [by apply String.eqb_neq|].
    intros Ht. rewrite Ht in Hs. simpl in Hs. destruct sid as [x|]; [|done].
    apply negb_false_iff, String.eqb_eq in Hs. by subst. }
  destruct (HP s) as (rest & E & F). exists rest; split; [done|].
  intros k Hk. rewrite List.Forall_forall in F. exact (F _ Hk).
Qed.

(** X18: the file name given by [Results.pkl_path] ends with the
    repository name followed by [.json]. *)
Theorem pkl_path_suffix (pkl_dir name : string) :
  endswith (pkl_path pkl_dir name) (name ++ ".json") = true.
Proof.
  unfold pkl_path, path_join.
  destruct (startswith _ _); [apply endswith_self|].
  destruct (_ || _).
  - apply endswith_app_self.
  - rewrite str_app_assoc. apply endswith_app_self.
Qed.

Lemma substring_split s k :
  (k <= String.length s)%nat ->
  substring 0 k s ++ substring k (String.length s - k) s = s.
Proof.
  revert k; induction s as [|c s IH]; intros [|k] Hk; simpl in *; try lia.
  - done.
  - rewrite substring_full by lia. done.
  - rewrite IH by lia. done.
Qed.

Lemma endswith_split a suf : endswith a suf = true -> exists p, a = p ++ suf.
Proof.
  unfold endswith. intros H. apply andb_true_iff in H as [Hl Hs].
  apply Nat.leb_le in Hl. apply String.eqb_eq in Hs.
  exists (substring 0 (String.length a - String.length suf) a).
  pose proof (substring_split a (String.length a - String.length suf)) as Hsp.
  replace (String.length a - (String.length a - String.length suf))%nat
    with (String.length suf) in Hsp by lia.
  rewrite Hs in Hsp. symmetry; apply Hsp; lia.
Qed.

Lemma PKL_DIR_shape xdg home :
  PKL_DIR xdg home = "tehuti" \/ exists p, PKL_DIR xdg home = p ++ "/tehuti".
Proof.
  unfold PKL_DIR. generalize (match xdg with Some d => d | None => path_join (path_join home ".local") "share" end) as a.
  intros a. unfold path_join.
  change (startswith "tehuti" "/") with false. cbv iota.
  destruct (String.eqb a "") eqn:E; simpl.
  - apply String.eqb_eq in E as ->. by left.
  - destruct (endswith a "/") eqn:Ee; simpl.
    + apply endswith_split in Ee as [p ->]. right; exists p.
      rewrite <- str_app_assoc. reflexivity.
    + right; exists a. reflexivity.
Qed.

(** X19: [PKL_DIR] is ["tehuti"] or ends with ["/tehuti"], whatever
    [XDG_DATA_HOME] and the home directory are; so the cache file of a
    module is [PKL_DIR/name.json], except for a name starting with ["/"],
    which [os.path.join] turns into the absolute path [name.json] outside
    [PKL_DIR]. *)
Theorem PKL_DIR_cache_file (xdg : option string) (home name : string) :
  (PKL_DIR xdg home = "tehuti" \/ endswith (PKL_DIR xdg home) "/tehuti" = true) /\
  (startswith name "/" = false ->
   pkl_path (PKL_DIR xdg home) name = PKL_DIR xdg home ++ "/" ++ name ++ ".json") /\
  (startswith name "/" = true -> pkl_path (PKL_DIR xdg home) name = name ++ ".json").
Proof.
  assert (Hs : startswith (name ++ ".json") "/" = startswith name "/").
  { destruct name as [|a t]; [reflexivity|]. unfold startswith.
    change (String a t ++ ".json") with (String a (t ++ ".json")).
    change (String.prefix "/" (String a (t ++ ".json")))
      with (if ascii_dec "/" a then String.prefix "" (t ++ ".json") else false).
    change (String.prefix "/" (String a t))
      with (if ascii_dec "/" a then String.prefix "" t else false).
    destruct (ascii_dec "/" a); [|reflexivity].
    destruct t; reflexivity. }
  split; [|split].
  - destruct (PKL_DIR_shape xdg home) as [->|[p ->]]; [by left|right].
    apply endswith_app_self.
  - intros Hn. unfold pkl_path, path_join. rewrite Hs, Hn.
    destruct (PKL_DIR_shape xdg home) as [->|[p ->]]; [reflexivity|].
    rewrite app_nonempty, endswith_app by (simpl; lia). reflexivity.
  - intros Hn. unfold pkl_path, path_join. by rewrite Hs, Hn.
Qed.


(** ** The [sum vexn] monad *)

Lemma vbind_inr {A B} (f : A -> vexn + B) (a : A) : (x ← inr a; f x) = f a.
Proof. reflexivity. Qed.

Lemma vbind_inl {A B} (f : A -> vexn + B) (e : vexn) : (x ← inl e; f x) = inl e.
Proof. reflexivity. Qed.

Ltac vinv H :=
  unfold mbind, vexn_bind, mret, vexn_ret, fmap, vexn_fmap in H;
  repeat match type of H with
  | context [match ?x with inl _ => _ | inr _ => _ end] =>
      let E := fresh "E" in destruct x eqn:E; [discriminate H|]
  end.

Lemma vgetitem_inr {V} (m : gmap string V) k v : vgetitem m k = inr v -> m !! k = Some v.
Proof. unfold vgetitem; destruct (m !! k); congruence. Qed.

Lemma vgetitem_some {V} (m : gmap string V) k v : m !! k = Some v -> vgetitem m k = inr v.
Proof. unfold vgetitem; intros ->; done. Qed.

Lemma vgetitem_none {V} (m : gmap string V) k :
  m !! k = None -> vgetitem m k = inl (Exn (KeyError k)).
Proof. unfold vgetitem; intros ->; done. Qed.

(** ** [for] loops with an accumulator *)

Lemma for_acc_preserve {A B} (f : B -> A -> vexn + B) (P : B -> Prop) l b b' :
  (forall b x b', In x l -> f b x = inr b' -> P b -> P b') ->
  P b -> for_acc f l b = inr b' -> P b'.
Proof.
  revert b; induction l as [|x t IH]; intros b Hf Hb H; simpl in H.
  - by injection H as <-.
  - vinv H. apply (IH b0); [intros; eapply Hf; [right|..]; eauto| |done].
    eapply Hf; [left; done|exact E|exact Hb].
Qed.

Lemma for_acc_all {A B} (f : B -> A -> vexn + B) (Q : A -> B -> Prop) l b b' :
  (forall b y b' x, In y l -> f b y = inr b' -> Q x b -> Q x b') ->
  (forall b y b', In y l -> f b y = inr b' -> Q y b') ->
  for_acc f l b = inr b' -> forall x, In x l -> Q x b'.
Proof.
  revert b; induction l as [|y t IH]; intros b Hs Hn H x Hx; [done|].
  simpl in H; vinv H. destruct Hx as [<-|Hx].
  - eapply (for_acc_preserve f (Q y) t b0 b'); [|eapply Hn; [left; done|exact E]|exact H].
    intros; eapply Hs; [right|..]; eauto.
  - eapply (IH b0); [| |exact H|exact Hx].
    + intros; eapply Hs; [right|..]; eauto.
    + intros; eapply Hn; [right|..]; eauto.
Qed.

Lemma for_acc_ok {A B} (f : B -> A -> vexn + B) l b :
  (forall b x, In x l -> exists b', f b x = inr b') -> exists b', for_acc f l b = inr b'.
Proof.
  revert b; induction l as [|x t IH]; intros b Hf; simpl; [eauto|].
  destruct (Hf b x (or_introl eq_refl)) as [b1 E]. rewrite E. apply IH.
  intros; apply Hf; right; done.
Qed.

Lemma for_acc_insert {V} (step : gmap string V -> string -> vexn + gmap string V)
    (P : string -> V -> Prop) l init out :
  (forall acc x acc', In x l -> step acc x = inr acc' ->
     exists w, P x w /\ acc' = <[x:=w]> acc) ->
  for_acc step l init = inr out ->
  forall x, In x l -> exists w, P x w /\ out !! x = Some w.
Proof.
  intros Hs H.
  eapply (for_acc_all step (fun x acc => exists w, P x w /\ acc !! x = Some w));
    [..|exact H].
  - intros acc y acc' x Hy E (w & Hw & Hl). destruct (Hs _ _ _ Hy E) as (w' & Hw' & ->).
    destruct (decide (y = x)) as [<-|Hne].
    + exists w'; split; [done|]. by rewrite lookup_insert_eq.
    + exists w; split; [done|]. by rewrite lookup_insert_ne.
  - intros acc y acc' Hy E. destruct (Hs _ _ _ Hy E) as (w' & Hw' & ->).
    exists w'; split; [done|]. by rewrite lookup_insert_eq.
Qed.

(** Apply [for_acc_insert] to the loop of [H]: the step is proved
    first, then the goal goes on with the cells of the result. *)
Ltac for_insert H P Hres :=
  match type of H with
  | for_acc ?f ?l _ = _ =>
      let Hs := fresh "Hs" in
      assert (Hs : forall acc x acc', In x l -> f acc x = inr acc' ->
                     exists w, P x w /\ acc' = <[x:=w]> acc);
      [| pose proof (for_acc_insert f P _ _ _ Hs H) as Hres]
  end.

(** The inner loop of a nested loop runs through. *)
Ltac inner_ok :=
  match goal with
  | |- exists _, for_acc ?f ?l ?b ≫= _ = _ =>
      let Er := fresh "Er" in let row := fresh "row" in
      destruct (for_acc_ok f l b) as [row Er]
  end.

Lemma min_or_value_ok v : v <> VList [] -> exists w, min_or_value v = inr w.
Proof. destruct v as [q|[|x xs]|t]; intros H; try done; eexists; reflexivity. Qed.

Lemma list_to_map_const_lookup {V} (l : list string) (d : V) c x :
  (list_to_map ((fun c => (c, d)) <$> l) : gmap string V) !! c = Some x -> x = d.
Proof.
  intros H. apply elem_of_list_to_map_2 in H.
  apply list_elem_of_fmap in H as (c' & E & _). by injection E.
Qed.

(** ** [_select_data_common] *)

Lemma common_keys_fold recs K :
  exists K', fold_left (fun (keys : option (gset string)) (r : record) =>
               match keys with
               | None => Some (dom r ∖ {["name"]})
               | Some k => Some (dom r ∩ k)
               end) recs (Some K) = Some K' /\
    forall k, k ∈ K' <-> k ∈ K /\ Forall (fun r => k ∈ dom r) recs.
Proof.
  revert K; induction recs as [|r t IH]; intros K; simpl.
  - exists K; split; [done|]. intros k; split; [auto|tauto].
  - destruct (IH (dom r ∩ K)) as (K' & E & HK). exists K'; split; [done|].
    intros k; rewrite HK, elem_of_intersection, Forall_cons. tauto.
Qed.

Lemma common_keys_spec r recs :
  exists K, common_keys (r :: recs) = Some K /\
    forall k, k ∈ K <-> k <> "name" /\ Forall (fun r => k ∈ dom r) (r :: recs).
Proof.
  unfold common_keys; simpl.
  destruct (common_keys_fold recs (dom r ∖ {["name"]})) as (K & E & HK).
  exists K; split; [done|]. intros k.
  rewrite HK, elem_of_difference, elem_of_singleton, Forall_cons. tauto.
Qed.

Lemma store_records_forall (results : store) (P : record -> Prop) :
  Forall P (map_to_list results).*2 <-> forall c r, results !! c = Some r -> P r.
Proof.
  rewrite Forall_forall. split.
  - intros H c r Hc. apply H. apply list_elem_of_fmap. exists (c, r).
    split; [done|]. by apply elem_of_map_to_list.
  - intros H r Hr. apply list_elem_of_fmap in Hr as ([c r'] & -> & Hin).
    apply elem_of_map_to_list in Hin. eauto.
Qed.

Lemma select_data_common_keys (results : store) (commit : commit_arg) :
  results <> ∅ ->
  exists commits ms,
    select_data_common results commit None = inr (commits, ms) /\ NoDup ms /\
    forall k, In k ms <-> k <> "name" /\
      forall c r, results !! c = Some r -> is_Some (r !! k).
Proof.
  intros Hne. unfold select_data_common.
  destruct (map_to_list results) as [|[c0 r0] l] eqn:E;
    [by apply map_to_list_empty_iff in E|].
  cbn [fmap list_fmap snd].
  destruct (common_keys_spec r0 l.*2) as (K & EK & HK). rewrite EK.
  eexists _, _; split; [reflexivity|]. split; [apply NoDup_elements|].
  intros k. rewrite <- list_elem_of_In, elem_of_elements, HK.
  change (r0 :: l.*2) with (((c0, r0) :: l).*2). rewrite <- E, store_records_forall.
  split; intros [Hn Hk]; split; try done; intros c r Hc; apply elem_of_dom; eauto.
Qed.

Lemma select_data_common_cnone (results : store) metrics commits ms :
  select_data_common results CNone metrics = inr (commits, ms) ->
  forall c, In c commits -> is_Some (results !! c).
Proof.
  intros H c Hc. unfold select_data_common in H.
  assert (Hcs : commits = (map_to_list results).*1).
  { destruct metrics; [congruence|]. destruct (common_keys _); congruence. }
  subst commits. apply list_elem_of_In, list_elem_of_fmap in Hc as ([c' r] & -> & Hin).
  apply elem_of_map_to_list in Hin. by exists r.
Qed.

Lemma select_data_common_some (results : store) commit ms :
  exists commits, select_data_common results commit (Some ms) = inr (commits, ms).
Proof. destruct commit; eexists; reflexivity. Qed.

(** ** [m.split('-', 1)[1]] over the selected metrics *)

Lemma mapM_cons {A B} (f : A -> vexn + B) x l :
  mapM f (x :: l) = (y ← f x; k ← mapM f l; mret (y :: k)).
Proof. reflexivity. Qed.

Lemma split_on1_eq sep m :
  split_on1 sep m = match split_first sep m with Some (a, b) => [a; b] | None => [m] end.
Proof. reflexivity. Qed.

Lemma mapM_index_err ms :
  (exists m, In m ms /\ split_first "-" m = None) ->
  mapM (fun m => py_index (split_on1 "-" m) 1) ms = inl IndexError.
Proof.
  induction ms as [|m t IH]; intros (m' & Hin & Hn); [done|].
  rewrite mapM_cons. rewrite split_on1_eq. destruct Hin as [<-|Hin].
  - rewrite Hn. reflexivity.
  - destruct (split_first "-" m) as [[a b]|]; [|reflexivity].
    rewrite IH by eauto. reflexivity.
Qed.

Lemma mapM_index_ok ms :
  (forall m, In m ms -> split_first "-" m <> None) ->
  exists names, mapM (fun m => py_index (split_on1 "-" m) 1) ms = inr names.
Proof.
  induction ms as [|m t IH]; intros H; [eexists; reflexivity|].
  rewrite mapM_cons. rewrite split_on1_eq.
  destruct (split_first "-" m) as [[a b]|] eqn:E; [|by exfalso; eapply H; [left|]].
  destruct IH as [names E2]; [intros; apply H; right; done|].
  rewrite E2. eexists; reflexivity.
Qed.

Lemma mapM_index_in ms names :
  mapM (fun m => py_index (split_on1 "-" m) 1) ms = inr names ->
  forall m a name, In m ms -> split_first "-" m = Some (a, name) -> In name names.
Proof.
  revert names; induction ms as [|m0 t IH]; intros names H m a name Hm Hs; [done|].
  rewrite mapM_cons in H. rewrite split_on1_eq in H. vinv H.
  injection H as <-. destruct Hm as [<-|Hm].
  - rewrite Hs in E. injection E as <-. left; done.
  - right. eapply IH; eauto.
Qed.

Lemma In_uniq x l : In x (uniq l) <-> In x l.
Proof.
  unfold uniq. rewrite <- !list_elem_of_In, elem_of_elements, elem_of_list_to_set. done.
Qed.

(** ** [OrderedDict] *)

Lemma od_fromkeys_fold l od :
  NoDup od.*1 ->
  NoDup (fold_left (fun (od : odict) k =>
           if existsb (String.eqb k) od.*1 then od else (od ++ [(k, None)])%list) l od).*1 /\
  forall k, In k (fold_left (fun (od : odict) k =>
           if existsb (String.eqb k) od.*1 then od else (od ++ [(k, None)])%list) l od).*1
    <-> In k od.*1 \/ In k l.
Proof.
  revert od; induction l as [|x t IH]; intros od Hnd; simpl.
  - split; [done|]. intros k; tauto.
  - destruct (existsb (String.eqb x) od.*1) eqn:E.
    + destruct (IH od Hnd) as [H1 H2]. split; [done|]. intros k; rewrite H2.
      apply existsb_exists in E as (y & Hy & Hxy). apply String.eqb_eq in Hxy; subst y.
      split; [tauto|]. intros [H|[<-|H]]; auto.
    + assert (Hnd' : NoDup (od ++ [(x, None)])%list.*1).
      { rewrite fmap_app. simpl. apply NoDup_app. split; [done|]. split.
        - intros y Hy1 Hy2. apply list_elem_of_singleton in Hy2 as ->.
          apply list_elem_of_In in Hy1.
          assert (existsb (String.eqb x) od.*1 = true) as Ht
            by (apply existsb_exists; exists x; split; [done|apply String.eqb_refl]).
          congruence.
        - apply NoDup_singleton. }
      destruct (IH _ Hnd') as [H1 H2]. split; [done|]. intros k; rewrite H2.
      rewrite fmap_app, in_app_iff. simpl. tauto.
Qed.

Lemma od_fromkeys_spec l :
  NoDup (od_fromkeys l).*1 /\ forall k, In k (od_fromkeys l).*1 <-> In k l.
Proof.
  destruct (od_fromkeys_fold l [] (NoDup_nil_2)) as [H1 H2]. split; [done|].
  intros k; unfold od_fromkeys; rewrite H2. simpl. tauto.
Qed.

Lemma od_set_keys k v (od : odict) : In k od.*1 -> (od_set k v od).*1 = od.*1.
Proof.
  intros Hk. unfold od_set.
  replace (existsb (String.eqb k) od.*1) with true
    by (symmetry; apply existsb_exists; exists k; split; [done|apply String.eqb_refl]).
  clear Hk. induction od as [|[k' x] t IH]; simpl; [done|].
  f_equal; [|exact IH].
  destruct (String.eqb k' k) eqn:E; [apply String.eqb_eq in E; subst|]; done.
Qed.

Lemma od_set_in k v (od : odict) k' x :
  In (k', x) (od_set k v od) -> (k' = k /\ x = Some v) \/ (In (k', x) od /\ k' <> k).
Proof.
  unfold od_set. destruct (existsb (String.eqb k) od.*1) eqn:E.
  - intros H. apply in_map_iff in H as ([k1 x1] & Ef & Hin). simpl in Ef.
    destruct (String.eqb k1 k) eqn:Ek.
    + injection Ef as <- <-. left; done.
    + injection Ef as -> ->. right; split; [done|]. by apply String.eqb_neq.
  - intros H. apply in_app_or in H as [H|[H|[]]].
    + right; split; [done|]. intros ->.
      assert (existsb (String.eqb k) od.*1 = true) as Ht; [|congruence].
      apply existsb_exists; exists k; split; [|apply String.eqb_refl].
      apply list_elem_of_In, list_elem_of_fmap. exists (k, x); split; [done|].
      by apply list_elem_of_In.
    + injection H as <- <-. left; done.
Qed.

(** ** Lengths of lists with distinct items *)

Lemma length_two {A} (l : list A) a b : In a l -> In b l -> a <> b -> (2 <= length l)%nat.
Proof.
  destruct l as [|x [|y t]]; simpl; try lia; intros Ha Hb Hab; exfalso.
  destruct Ha as [<-|[]], Hb as [<-|[]]. congruence.
Qed.

Lemma length_one {A} (l : list A) :
  NoDup l -> (forall a b, In a l -> In b l -> a = b) -> (length l <= 1)%nat.
Proof.
  destruct l as [|x [|y t]]; simpl; try lia; intros Hnd Heq.
  exfalso. apply NoDup_cons in Hnd as [Hx _]. apply Hx.
  rewrite (Heq x y) by auto. left; done.
Qed.

(** ** Extra theorems, part 3 *)

(** X20: with no commits and no metrics given, [_select_data_common]
    raises [TypeError] on an empty store and otherwise selects the metrics
    present in every record, without [name] and without duplicates. *)
Theorem select_data_common_default (results : store) (commit : commit_arg) :
  (results = ∅ -> select_data_common results commit None = inl (Exn TypeError)) /\
  (results <> ∅ -> exists commits ms,
     select_data_common results commit None = inr (commits, ms) /\ NoDup ms /\
     forall k, In k ms <-> k <> "name" /\
       forall c r, results !! c = Some r -> is_Some (r !! k)).
Proof.
  split.
  - intros ->. unfold select_data_common. rewrite map_to_list_empty. reflexivity.
  - apply select_data_common_keys.
Qed.

(** X21: [VaryRepoCommit.select_data] given a single commit string looks
    up its first character only, raising [KeyError] when that is not a
    stored commit. *)
Theorem vary_repo_commit_select_str_commit (results : store) (c : ascii) (t m : string)
    (ms : list string) (Hc : results !! String c "" = None) :
  vary_repo_commit_select results (CStr (String c t)) (Some (m :: ms))
  = inl (Exn (KeyError (String c ""))).
Proof.
  unfold vary_repo_commit_select, select_data_common; simpl.
  rewrite (vgetitem_none _ _ Hc). reflexivity.
Qed.

(** X22: every cell selected by [VaryRepoCommit.select_data] is the
    minimum (or the value) stored for that metric at that commit. *)
Theorem vary_repo_commit_select_cells (results : store) (commit : commit_arg)
    (metrics : option (list string)) (data : gmap string (gmap string value))
    (H : vary_repo_commit_select results commit metrics = inr data) :
  exists commits ms, select_data_common results commit metrics = inr (commits, ms) /\
    forall m c, In m ms -> In c commits ->
      exists r v w, results !! c = Some r /\ r !! m = Some v /\ min_or_value v = inr w /\
        (data !! m ≫= lookup c) = Some w.
Proof.
  unfold vary_repo_commit_select in H.
  destruct (select_data_common results commit metrics) as [e|[commits ms]]; [done|].
  exists commits, ms; split; [done|]. rewrite vbind_inr in H. cbv beta iota in H.
  for_insert H (fun m (row : gmap string value) => forall c, In c commits ->
            exists r v w, results !! c = Some r /\ r !! m = Some v /\
              min_or_value v = inr w /\ row !! c = Some w) Hd.
  - intros acc x acc' _ E. vinv E. injection E as <-. eexists; split; [|reflexivity].
    intros c' Hc'.
    for_insert E0 (fun c (w : value) => exists r v, results !! c = Some r /\
              r !! x = Some v /\ min_or_value v = inr w) Hr.
    + intros row c1 row' _ E'. vinv E'. injection E' as <-.
      eexists; split; [|reflexivity]. eexists _, _.
      split; [apply vgetitem_inr; eassumption|].
      split; [apply vgetitem_inr; eassumption|eassumption].
    + destruct (Hr c' Hc') as (w & (r & v & H1 & H2 & H3) & H4). exists r, v, w; done.
  - intros m c Hm Hc. destruct (Hd m Hm) as (row & Hrow & Hdm).
    rewrite Hdm; simpl. apply Hrow, Hc.
Qed.

(** X23: [VaryRepoCommit.select_data] with no arguments succeeds on a
    non-empty store without empty timing lists. *)
Theorem vary_repo_commit_select_default_ok (results : store) (Hne : results <> ∅)
    (Hl : forall c r k, results !! c = Some r -> r !! k <> Some (VList [])) :
  exists data, vary_repo_commit_select results CNone None = inr data.
Proof.
  destruct (select_data_common_keys results CNone Hne) as (commits & ms & E & _ & Hk).
  pose proof (select_data_common_cnone _ _ _ _ E) as Hc.
  unfold vary_repo_commit_select. rewrite E, vbind_inr. cbv beta iota.
  apply for_acc_ok. intros data m Hm.
  inner_ok; [|rewrite Er; eexists; reflexivity].
  intros row c Hc'. destruct (Hc c Hc') as [r Hr].
  destruct (proj2 (proj1 (Hk m) Hm) c r Hr) as [v Hv].
  destruct (min_or_value_ok v) as [w Hw]; [intros ->; exact (Hl c r m Hr Hv)|].
  rewrite (vgetitem_some _ _ _ Hr), vbind_inr, (vgetitem_some _ _ _ Hv), vbind_inr, Hw.
  eexists; reflexivity.
Qed.

(** X24: [Violin.select_data] succeeds when every requested metric is
    stored at every requested commit, and each cell holds all the stored
    values. *)
Theorem violin_select_cells (results : store) (cs ms : list string)
    (Hall : forall m c, In m ms -> In c cs ->
       exists r, results !! c = Some r /\ is_Some (r !! m)) :
  exists data, violin_select results (CList cs) (Some ms) = inr data /\
    forall m c, In m ms -> In c cs ->
      exists r v, results !! c = Some r /\ r !! m = Some v /\
        (data !! m ≫= lookup c) =
          Some (match v with VList l => VCList (VNum <$> l) | _ => VCList [v] end).
Proof.
  unfold violin_select, select_data_common. rewrite vbind_inr. cbv beta iota.
  match goal with
  | |- exists _, for_acc ?f ?l ?b = _ /\ _ => destruct (for_acc_ok f l b) as [data Ed]
  end; [|exists data; split; [exact Ed|]].
  - intros data m Hm.
    inner_ok; [|rewrite Er; eexists; reflexivity].
    intros row c Hc. destruct (Hall m c Hm Hc) as (r & Hr & [v Hv]).
    rewrite (vgetitem_some _ _ _ Hr), vbind_inr, (vgetitem_some _ _ _ Hv), vbind_inr.
    eexists; reflexivity.
  - for_insert Ed (fun m (row : gmap string vcell) => forall c, In c cs ->
              exists r v, results !! c = Some r /\ r !! m = Some v /\
                row !! c = Some (match v with VList l => VCList (VNum <$> l)
                                           | _ => VCList [v] end)) Hd.
    + intros acc x acc' _ E. vinv E. injection E as <-. eexists; split; [|reflexivity].
      intros c' Hc'.
      for_insert E0 (fun c (w : vcell) => exists r v, results !! c = Some r /\
                r !! x = Some v /\
                w = match v with VList l => VCList (VNum <$> l) | _ => VCList [v] end) Hr.
      * intros row c1 row' _ E'. vinv E'. injection E' as <-.
        eexists; split; [|reflexivity]. eexists _, _.
        split; [apply vgetitem_inr; eassumption|].
        split; [apply vgetitem_inr; eassumption|reflexivity].
      * destruct (Hr c' Hc') as (w & (r & v & H1 & H2 & ->) & H4). exists r, v; done.
    + intros m c Hm Hc. destruct (Hd m Hm) as (row & Hrow & Hdm).
      rewrite Hdm; simpl. apply Hrow, Hc.
Qed.


Ltac for_insert_last P Hres :=
  match goal with H : for_acc _ _ _ = inr _ |- _ => for_insert H P Hres end.

(** X25: a metric without a dash makes [ManyBenchmarks.select_data] and
    [VarySetup.select_data] raise [IndexError]; more than two metric
    kinds make [ManyBenchmarks.select_data] raise [ValueError]. *)
Theorem many_benchmarks_select_errors (results : store) (commit : commit_arg)
    (ms : list string) :
  ((exists m, In m ms /\ split_first "-" m = None) ->
     many_benchmarks_select results commit (Some ms) = inl IndexError /\
     vary_setup_select results commit (Some ms) = inl IndexError) /\
  ((forall m, In m ms -> split_first "-" m <> None) ->
   (2 < length (uniq (first_field <$> ms)))%nat ->
   many_benchmarks_select results commit (Some ms) = inl (Exn ValueError)).
Proof.
  destruct (select_data_common_some results commit ms) as [commits E].
  split.
  - intros Hm. unfold many_benchmarks_select, vary_setup_select.
    rewrite E, !vbind_inr. cbv beta iota zeta.
    rewrite (mapM_index_err ms Hm). split; reflexivity.
  - intros Hok Hlen. unfold many_benchmarks_select.
    rewrite E, vbind_inr. cbv beta iota zeta.
    destruct (mapM_index_ok ms Hok) as [names En]. rewrite En, vbind_inr.
    apply Nat.ltb_lt in Hlen. rewrite Hlen. reflexivity.
Qed.

(** X26: [ManyBenchmarks.select_data] succeeds only with at most two metric
    kinds, and then fills each benchmark, kind and commit with the
    minimum stored value. *)
Theorem many_benchmarks_select_cells (results : store) (cs ms : list string)
    (data : gmap string (gmap string (option (gmap string (option value)))))
    (H : many_benchmarks_select results (CList cs) (Some ms) = inr data) :
  (length (uniq (first_field <$> ms)) <= 2)%nat /\
  forall m1 m2 a name c, In m1 ms -> In m2 ms -> split_first "-" m2 = Some (a, name) ->
    In c cs ->
    exists r v w row col, results !! c = Some r /\
      r !! (first_field m1 ++ "-" ++ name) = Some v /\ min_or_value v = inr w /\
      data !! name = Some row /\ row !! first_field m1 = Some (Some col) /\
      col !! c = Some (Some w).
Proof.
  unfold many_benchmarks_select, select_data_common in H.
  rewrite vbind_inr in H. cbv beta iota zeta in H.
  destruct (mapM _ ms) as [e|names] eqn:En; [done|]. rewrite vbind_inr in H.
  destruct (2 <? length (uniq (first_field <$> ms)))%nat eqn:Hlen; [done|].
  apply Nat.ltb_ge in Hlen. split; [exact Hlen|].
  intros m1 m2 a name c Hm1 Hm2 Hs Hc.
  for_insert H (fun name (row : gmap string (option (gmap string (option value)))) =>
      forall b c, In b (first_field <$> ms) -> In c cs ->
      exists r v w col, results !! c = Some r /\ r !! (b ++ "-" ++ name) = Some v /\
        min_or_value v = inr w /\ row !! b = Some (Some col) /\ col !! c = Some (Some w)) Hd.
  - intros acc x acc' _ E. vinv E. injection E as <-. eexists; split; [|reflexivity].
    intros b c' Hb Hc'.
    for_insert_last (fun b (o : option (gmap string (option value))) =>
        exists col, o = Some col /\ forall c, In c cs ->
          exists r v w, results !! c = Some r /\ r !! (b ++ "-" ++ x) = Some v /\
            min_or_value v = inr w /\ col !! c = Some (Some w)) Hr.
    + intros row b1 row' _ E'. vinv E'. injection E' as <-.
      eexists; split; [|reflexivity]. eexists; split; [reflexivity|].
      intros c1 Hc1.
      for_insert_last (fun c (o : option value) =>
          exists r v w, o = Some w /\ results !! c = Some r /\
            r !! (b1 ++ "-" ++ x) = Some v /\ min_or_value v = inr w) Hcol.
      * intros col c2 col' _ E''. vinv E''. injection E'' as <-.
        eexists; split; [|reflexivity]. eexists _, _, _. split; [reflexivity|].
        split; [apply vgetitem_inr; eassumption|].
        split; [apply vgetitem_inr; eassumption|eassumption].
      * destruct (Hcol c1 Hc1) as (o & (r & v & w & -> & H1 & H2 & H3) & H4).
        exists r, v, w; done.
    + apply In_uniq in Hb. destruct (Hr b Hb) as (o & (col & -> & Hcol) & Hrb).
      destruct (Hcol c' Hc') as (r & v & w & H1 & H2 & H3 & H4).
      exists r, v, w, col; done.
  - assert (Hn : In name (uniq names)).
    { apply In_uniq. eapply mapM_index_in; eauto. }
    destruct (Hd name Hn) as (row & Hrow & Hdn).
    assert (Hb : In (first_field m1) (first_field <$> ms)).
    { apply list_elem_of_In, list_elem_of_fmap. exists m1; split; [done|].
      by apply list_elem_of_In. }
    destruct (Hrow _ c Hb Hc) as (r & v & w & col & H1 & H2 & H3 & H4 & H5).
    exists r, v, w, row, col; done.
Qed.

(** X27: every ordered dict built by [VarySetup.select_data] has the keys
    of [OrderedDict.fromkeys(names)], in that order, each filled with a
    value. *)
Theorem vary_setup_select_odicts (results : store) (commit : commit_arg)
    (ms : list string) (data : gmap string (gmap string (option odict)))
    (H : vary_setup_select results commit (Some ms) = inr data) :
  exists names, mapM (fun m => py_index (split_on1 "-" m) 1) ms = inr names /\
    forall b row c od, data !! b = Some row -> row !! c = Some (Some od) ->
      od.*1 = (od_fromkeys names).*1 /\ NoDup od.*1 /\
      (forall k, In k od.*1 <-> In k names) /\
      (forall k x, In (k, x) od -> is_Some x).
Proof.
  destruct (select_data_common_some results commit ms) as [commits E].
  unfold vary_setup_select in H. rewrite E, vbind_inr in H. cbv beta iota zeta in H.
  destruct (mapM _ ms) as [e|names] eqn:En; [done|]. rewrite vbind_inr in H.
  exists names; split; [done|].
  set (good := fun od : odict => od.*1 = (od_fromkeys names).*1 /\
                 forall k x, In (k, x) od -> is_Some x).
  assert (Hgood : forall b row c od, data !! b = Some row -> row !! c = Some (Some od) ->
                    good od).
  { revert H. apply (for_acc_preserve _ (fun data : gmap string (gmap string (option odict)) =>
        forall b row c od, data !! b = Some row -> row !! c = Some (Some od) -> good od)).
    2:{ intros b row c od Hb. done. }
    intros acc b acc' _ Eb Hacc. vinv Eb. injection Eb as <-.
    intros b1 row c od Hb1 Hc.
    destruct (decide (b = b1)) as [<-|Hne].
    2:{ rewrite lookup_insert_ne in Hb1 by done. eauto. }
    rewrite lookup_insert_eq in Hb1. injection Hb1 as <-.
    revert E0 c od Hc.
    apply (for_acc_preserve _ (fun row : gmap string (option odict) =>
        forall c od, row !! c = Some (Some od) -> good od)).
    2:{ intros c od Hc. apply list_to_map_const_lookup in Hc. done. }
    intros row c row' _ Ec Hrow. vinv Ec. injection Ec as <-.
    intros c1 od Hc1. destruct (decide (c = c1)) as [<-|Hne].
    2:{ rewrite lookup_insert_ne in Hc1 by done. eauto. }
    rewrite lookup_insert_eq in Hc1. injection Hc1 as ->.
    match goal with Ho : for_acc _ names _ = inr od |- _ => rename Ho into Eod end.
    assert (Hkeys : od.*1 = (od_fromkeys names).*1).
    { revert Eod.
      apply (for_acc_preserve _ (fun od : odict => od.*1 = (od_fromkeys names).*1));
        [|reflexivity].
      intros o name o' Hname En' Ho. vinv En'. injection En' as <-.
      rewrite od_set_keys; [done|]. rewrite Ho. by apply od_fromkeys_spec. }
    assert (Hset : forall name, In name names -> forall x, In (name, x) od -> is_Some x).
    { eapply (for_acc_all _ (fun name (o : odict) => forall x, In (name, x) o -> is_Some x));
        [| |exact Eod].
      - intros o y o' k Hy Ey Hk. vinv Ey. injection Ey as <-.
        intros x Hx. apply od_set_in in Hx as [[-> ->]|[Hx _]]; [by eexists|eauto].
      - intros o y o' Hy Ey. vinv Ey. injection Ey as <-.
        intros x Hx. apply od_set_in in Hx as [[_ ->]|[_ Hne']]; [by eexists|done]. }
    split; [done|]. intros k x Hkx. apply (Hset k); [|done].
    apply od_fromkeys_spec. rewrite <- Hkeys.
    apply list_elem_of_In, list_elem_of_fmap. exists (k, x); split; [done|].
    by apply list_elem_of_In. }
  intros b row c od Hb Hc. destruct (Hgood b row c od Hb Hc) as [Hk Hs].
  destruct (od_fromkeys_spec names) as [Hnd Hin].
  rewrite Hk. split; [done|]. split; [done|]. split; [done|]. exact Hs.
Qed.

(** X28: setting an unknown plot method raises [AttributeError]; setting a
    known one stores the state object itself as the key, so the getter,
    [select_data] and [plot] all raise [KeyError]. *)
Theorem set_method_state_unusable (v : Vis) (name : string) :
  (methods !! name = None ->
   set_method v name = inl (AttributeError ("Vis has no method " ++ py_repr name ++ "."))) /\
  (forall v', set_method v name = inr v' ->
   exists st, methods !! name = Some st /\ get_method v' = inl (KeyErrorState st) /\
     (forall commit metrics, vis_select_data v' commit metrics = inl (KeyErrorState st)) /\
     (forall alternate, vis_plot v' alternate = inl (KeyErrorState st))).
Proof.
  unfold set_method. split.
  - intros ->. reflexivity.
  - intros v' H. destruct (methods !! name) as [st|]; [|done].
    injection H as <-. exists st. split; [done|]. split; [reflexivity|].
    split; [intros; reflexivity|].
    intros alt. unfold vis_plot; simpl. destruct (vis_plot_data v); reflexivity.
Qed.

(** X29: the command line accepts exactly the plot styles of [choices],
    and dispatches each one to the [select_data] of its method; any other
    style exits with status 2. *)
Theorem vis_main_dispatch (results : store) (p : string) (commits metrics : option (list string)) :
  (existsb (String.eqb p) choices = true ->
   exists st, methods !! (parse_plotstyle p).1 = Some st /\
     vis_main results p commits metrics =
       (pd ← state_select st results
               (match commits with None => CNone | Some l => CList l end) metrics;
        mret ({| vis_results := results; vis_method := KName (parse_plotstyle p).1;
                 vis_plot_data := Some pd |}, (st, (parse_plotstyle p).2)))) /\
  (existsb (String.eqb p) choices = false ->
   vis_main results p commits metrics = inl (SystemExit 2)).
Proof.
  split.
  - intros H.
    assert (Hm : is_Some (methods !! (parse_plotstyle p).1)).
    { apply existsb_exists in H as (q & Hq & E). apply String.eqb_eq in E; subst q.
      destruct Hq as [<-|[<-|[<-|[<-|[<-|[<-|[<-|[<-|[]]]]]]]]];
        vm_compute; eexists; reflexivity. }
    destruct Hm as [st Hst]. exists st; split; [done|].
    unfold vis_main. rewrite H.
    destruct (parse_plotstyle p) as [method alt]. simpl in Hst |- *.
    unfold vis_select_data, get_method. simpl.
    rewrite (vgetitem_some _ _ _ Hst), vbind_inr.
    match goal with
    | |- context [state_select ?a ?b ?c ?d] => destruct (state_select a b c d)
    end; [reflexivity|].
    rewrite !vbind_inr. unfold vis_plot, get_method; simpl. rewrite (vgetitem_some _ _ _ Hst). reflexivity.
  - intros H. unfold vis_main. rewrite H. reflexivity.
Qed.

(** X30: [basic_plot] with [single_axis] uses one axis exactly when all
    metrics share the kind of the first one, and two axes otherwise. *)
Theorem basic_plot_single_axis (k0 : string) (keys : list string) :
  basic_plot true (k0 :: keys) =
  if forallb (fun k => String.eqb (first_field k) (first_field k0)) keys
  then (true, false) else (false, true).
Proof.
  unfold basic_plot. destruct (forallb _ keys) eqn:E.
  - replace (1 <? length (uniq (first_field <$> k0 :: keys)))%nat with false; [done|].
    symmetry. apply Nat.ltb_ge. apply length_one; [unfold uniq; apply NoDup_elements|].
    assert (Hall : forall a, In a (uniq (first_field <$> k0 :: keys)) -> a = first_field k0).
    { intros a Ha. apply In_uniq, list_elem_of_In, list_elem_of_fmap in Ha as (k & -> & Hk).
      apply list_elem_of_In in Hk as [<-|Hk]; [done|].
      rewrite forallb_forall in E. apply String.eqb_eq, E, Hk. }
    intros a b Ha Hb. rewrite (Hall a Ha), (Hall b Hb). done.
  - replace (1 <? length (uniq (first_field <$> k0 :: keys)))%nat with true; [done|].
    symmetry. apply Nat.ltb_lt.
    assert (Hk : exists k, In k keys /\ String.eqb (first_field k) (first_field k0) = false).
    { clear -E. induction keys as [|k t IH]; simpl in E; [done|].
      destruct (String.eqb (first_field k) (first_field k0)) eqn:Ek; simpl in E.
      - destruct (IH E) as (k' & Hk' & Hf). exists k'; split; [right|]; done.
      - exists k; split; [left|]; done. }
    destruct Hk as (k & Hk & Hf). apply String.eqb_neq in Hf.
    apply (length_two _ (first_field k) (first_field k0)); [..|exact Hf];
      apply In_uniq, list_elem_of_In, list_elem_of_fmap.
    + exists k; split; [done|]. apply list_elem_of_In; right; done.
    + exists k0; split; [done|]. apply list_elem_of_In; left; done.
Qed.


(** ** Witnesses of the further theorems *)


Lemma shorten_sha_hex_witness : shorten_sha "c0ffee1234567890" = "c0ffee12".
Proof. apply (shorten_sha_hex "c"%char "0ffee1234567890"). reflexivity. Defined.

Lemma shorten_sha_non_hex_last_witness : shorten_sha "c0ffee-dirty" = "c0ffee-dirty".
Proof. apply (shorten_sha_non_hex_last "c0ffee-dirt" "y"%char); reflexivity. Defined.

Lemma shorten_sha_working_tree_id_witness :
  snd (working_tree_id g_clean (state_of ∅)) = inr "c0ffee" /\
  (shorten_sha "c0ffee" = "c0ffee" \/
   exists h st, git_log g_clean "HEAD" = COk h /\ git_status g_clean = COk st /\
                strip st = "" /\ "c0ffee" = strip h).
Proof.
  split; [reflexivity|].
  apply (shorten_sha_working_tree_id g_clean (state_of ∅) "c0ffee"). reflexivity.
Defined.

Lemma time_run_best_per_loop_witness :
  (0 < 4)%Z /\
  exists l, time_run [3; 2; 5]%Q 4 = inr (VList l) /\
    py_min (VList l) = inr (VNum (Qdiv (qmin 3 [2; 5]%Q) (inject_Z 4))).
Proof. split; [lia|]. apply (time_run_best_per_loop 3 [2; 5]%Q 4). lia. Defined.

Lemma linecount_run_path_with_space_witness :
  (2 <= length (py_split "my file"))%nat /\
  linecount_run (COk ("12" ++ String " " ("my file" ++ String "010" ""))) = inl ValueError.
Proof.
  split; [simpl; lia|].
  apply linecount_run_path_with_space; [discriminate|reflexivity|simpl; lia].
Defined.

Lemma linecount_run_reads_count_witness :
  py_int "12" 10 = inr 12%Z /\
  linecount_run (COk ("12" ++ String " " ("f.py" ++ String "010" ""))) = inr (VNum 12).
Proof.
  split; [reflexivity|].
  apply linecount_run_reads_count; [discriminate|reflexivity|discriminate|reflexivity|].
  reflexivity.
Defined.

Lemma memory_run_accumulates_witness :
  let readings := fun k : nat => [inject_Z (Z.of_nat k)] in
  let s := fst (memory_run readings 1 2 (mem_init 0)) in
  Forall (fun r => (r < next s)%nat) (usage_log s) /\
  exists fresh,
    snd (memory_run readings 3 2 s) = (map (mem_mean 2 s) (usage_log s) ++ fresh)%list /\
    length fresh = (Z.to_nat 3 * Z.to_nat 2)%nat.
Proof.
  intros readings s.
  assert (Hlog : Forall (fun r => (r < next s)%nat) (usage_log s)).
  { vm_compute. repeat constructor. }
  split; [exact Hlog|]. exact (memory_run_accumulates readings 3 2 s Hlog).
Defined.

Lemma main_with_target_measures_nothing_witness :
  keeps_results (ret tt) /\ keeps_measured (ret tt) /\
  results (fst (main_ g_clean [m_ok "timeit-f" 1] None (Some "HEAD") false None
                  (ret tt) (ret tt) (state_of ∅))) = ∅ /\
  measured (fst (main_ g_clean [m_ok "timeit-f" 1] None (Some "HEAD") false None
                   (ret tt) (ret tt) (state_of ∅))) = [].
Proof.
  assert (H1 : keeps_results (ret tt)) by (intros s; reflexivity).
  assert (H2 : keeps_measured (ret tt)) by (intros s; reflexivity).
  split; [exact H1|]. split; [exact H2|].
  exact (main_with_target_measures_nothing g_clean [m_ok "timeit-f" 1] None "HEAD" false None
           (ret tt) (ret tt) (state_of ∅) H1 H2).
Defined.

Lemma main_run_error_stops_witness :
  snd (run g_norepo [m_ok "timeit-f" 1] false None (state_of ∅)) = inl CalledProcessError /\
  main_ g_norepo [m_ok "timeit-f" 1] None None false None (ret tt) (ret tt) (state_of ∅)
  = run g_norepo [m_ok "timeit-f" 1] false None (state_of ∅).
Proof.
  assert (Hrun : snd (run g_norepo [m_ok "timeit-f" 1] false None (state_of ∅))
                 = inl CalledProcessError) by reflexivity.
  split; [exact Hrun|].
  exact (main_run_error_stops g_norepo [m_ok "timeit-f" 1] None false None (ret tt)
           (state_of ∅) CalledProcessError I Hrun).
Defined.

Lemma vary_repo_commit_select_str_commit_witness :
  ({["c0ffee" := rec_of "c0ffee" [("timeit-f", VNum 1)]]} : store) !! "c" = None /\
  vary_repo_commit_select {["c0ffee" := rec_of "c0ffee" [("timeit-f", VNum 1)]]}
    (CStr "c0ffee") (Some ["timeit-f"]) = inl (Exn (KeyError "c")).
Proof.
  assert (Hc : ({["c0ffee" := rec_of "c0ffee" [("timeit-f", VNum 1)]]} : store) !! "c" = None)
    by reflexivity.
  split; [exact Hc|]. exact (vary_repo_commit_select_str_commit _ "c" "0ffee" _ _ Hc).
Defined.

Lemma vary_repo_commit_select_cells_witness :
  vary_repo_commit_select {["c1" := rec_of "c1" [("timeit-f", VList [2; 1]%Q)]]} CNone None
    = inr {["timeit-f" := {["c1" := VNum 1]}]} /\
  exists commits ms,
    select_data_common {["c1" := rec_of "c1" [("timeit-f", VList [2; 1]%Q)]]} CNone None
      = inr (commits, ms) /\
    forall m c, In m ms -> In c commits ->
      exists r v w, ({["c1" := rec_of "c1" [("timeit-f", VList [2; 1]%Q)]]} : store) !! c
                      = Some r /\ r !! m = Some v /\ min_or_value v = inr w /\
        (({["timeit-f" := {["c1" := VNum 1]}]} : gmap string (gmap string value)) !! m
           ≫= lookup c) = Some w.
Proof.
  assert (H : vary_repo_commit_select {["c1" := rec_of "c1" [("timeit-f", VList [2; 1]%Q)]]}
                CNone None = inr {["timeit-f" := {["c1" := VNum 1]}]})
    by (vm_compute; reflexivity).
  split; [exact H|]. exact (vary_repo_commit_select_cells _ _ _ _ H).
Defined.

Lemma vary_repo_commit_select_default_ok_witness :
  ({["c1" := rec_of "c1" [("timeit-f", VList [2; 1]%Q)]]} : store) <> ∅ /\
  (forall c r k, ({["c1" := rec_of "c1" [("timeit-f", VList [2; 1]%Q)]]} : store) !! c = Some r ->
     r !! k <> Some (VList [])) /\
  exists data, vary_repo_commit_select {["c1" := rec_of "c1" [("timeit-f", VList [2; 1]%Q)]]}
                 CNone None = inr data.
Proof.
  assert (Hne : ({["c1" := rec_of "c1" [("timeit-f", VList [2; 1]%Q)]]} : store) <> ∅)
    by apply map_non_empty_singleton.
  assert (Hl : forall c r k,
             ({["c1" := rec_of "c1" [("timeit-f", VList [2; 1]%Q)]]} : store) !! c = Some r ->
             r !! k <> Some (VList [])).
  { intros c r k Hc Hk. apply lookup_singleton_Some in Hc as [_ <-].
    unfold rec_of in Hk. simpl in Hk.
    apply lookup_insert_Some in Hk as [[_ Hk]|[_ Hk]]; [discriminate|].
    apply lookup_insert_Some in Hk as [[_ Hk]|[_ Hk]]; [discriminate|].
    rewrite lookup_empty in Hk; discriminate. }
  split; [exact Hne|]. split; [exact Hl|].
  exact (vary_repo_commit_select_default_ok _ Hne Hl).
Defined.

Lemma violin_select_cells_witness :
  (forall m c, In m ["timeit-f"] -> In c ["c1"] ->
     exists r, ({["c1" := rec_of "c1" [("timeit-f", VList [2; 1]%Q)]]} : store) !! c = Some r /\
               is_Some (r !! m)) /\
  exists data, violin_select {["c1" := rec_of "c1" [("timeit-f", VList [2; 1]%Q)]]}
                 (CList ["c1"]) (Some ["timeit-f"]) = inr data /\
    forall m c, In m ["timeit-f"] -> In c ["c1"] ->
      exists r v, ({["c1" := rec_of "c1" [("timeit-f", VList [2; 1]%Q)]]} : store) !! c = Some r /\
        r !! m = Some v /\
        (data !! m ≫= lookup c) =
          Some (match v with VList l => VCList (VNum <$> l) | _ => VCList [v] end).
Proof.
  assert (Hall : forall m c, In m ["timeit-f"] -> In c ["c1"] ->
     exists r, ({["c1" := rec_of "c1" [("timeit-f", VList [2; 1]%Q)]]} : store) !! c = Some r /\
               is_Some (r !! m)).
  { intros m c [<-|[]] [<-|[]]. exists (rec_of "c1" [("timeit-f", VList [2; 1]%Q)]).
    split; [reflexivity|]. exists (VList [2; 1]%Q). reflexivity. }
  split; [exact Hall|]. exact (violin_select_cells _ _ _ Hall).
Defined.

Lemma many_benchmarks_select_cells_witness :
  many_benchmarks_select {["c1" := rec_of "c1" [("timeit-f", VList [2; 1]%Q)]]}
    (CList ["c1"]) (Some ["timeit-f"])
    = inr {["f" := {["timeit" := Some {["c1" := Some (VNum 1)]}]}]} /\
  (length (uniq (first_field <$> ["timeit-f"])) <= 2)%nat /\
  forall m1 m2 a name c, In m1 ["timeit-f"] -> In m2 ["timeit-f"] ->
    split_first "-" m2 = Some (a, name) -> In c ["c1"] ->
    exists r v w row col,
      ({["c1" := rec_of "c1" [("timeit-f", VList [2; 1]%Q)]]} : store) !! c = Some r /\
      r !! (first_field m1 ++ "-" ++ name) = Some v /\ min_or_value v = inr w /\
      ({["f" := {["timeit" := Some {["c1" := Some (VNum 1)]}]}]}
         : gmap string (gmap string (option (gmap string (option value))))) !! name
        = Some row /\
      row !! first_field m1 = Some (Some col) /\ col !! c = Some (Some w).
Proof.
  assert (H : many_benchmarks_select {["c1" := rec_of "c1" [("timeit-f", VList [2; 1]%Q)]]}
                (CList ["c1"]) (Some ["timeit-f"])
              = inr {["f" := {["timeit" := Some {["c1" := Some (VNum 1)]}]}]})
    by (vm_compute; reflexivity).
  split; [exact H|]. exact (many_benchmarks_select_cells _ _ _ _ H).
Defined.

Lemma vary_setup_select_odicts_witness :
  vary_setup_select {["c1" := rec_of "c1" [("timeit-f", VList [2; 1]%Q)]]}
    (CList ["c1"]) (Some ["timeit-f"])
    = inr {["timeit" := {["c1" := Some [("f", Some (VNum 1))]]}]} /\
  exists names, mapM (fun m => py_index (split_on1 "-" m) 1) ["timeit-f"] = inr names /\
    forall b row c od,
      ({["timeit" := {["c1" := Some [("f", Some (VNum 1))]]}]}
         : gmap string (gmap string (option odict))) !! b = Some row ->
      row !! c = Some (Some od) ->
      od.*1 = (od_fromkeys names).*1 /\ NoDup od.*1 /\
      (forall k, In k od.*1 <-> In k names) /\
      (forall k x, In (k, x) od -> is_Some x).
Proof.
  assert (H : vary_setup_select {["c1" := rec_of "c1" [("timeit-f", VList [2; 1]%Q)]]}
                (CList ["c1"]) (Some ["timeit-f"])
              = inr {["timeit" := {["c1" := Some [("f", Some (VNum 1))]]}]})
    by (vm_compute; reflexivity).
  split; [exact H|]. exact (vary_setup_select_odicts _ _ _ _ H).
Defined.
